(** * The load-cell sketch: an HX711 amplifier driven by one-letter serial commands

    The sketch owns a global [float scale] and an [int const avg_count], prints a
    few diagnostic readings in [setup], and then dispatches the bytes that arrive
    on the serial line in [loop]: [C] calibrates, [R] reads in units, [T] tares,
    [A] prints the averaged raw reading; anything else is dropped.

    The sketch is embedded as a state-passing program over a [World] that holds
    the amplifier, the transducer signal, the serial line and the sketch's global.
    The sketch's [float] is IEEE 754 binary32, taken from the specification of
    floating-point arithmetic that ships with the prover. The HX711 driver and the
    serial stream are libraries the sketch includes; their sources are not part of
    the repository, so they are modelled from the specification and marked so. *)

From Stdlib Require Import ZArith List String Ascii Bool Lia.
From Stdlib Require Import Floats.SpecFloat.
Import ListNotations.
Local Open Scope Z_scope.

(** ** binary32, the sketch's [float] *)

Module Binary32.

Definition prec : Z := 24.
Definition emax : Z := 128.

Definition float : Type := spec_float.

(** Conversion of an integer, rounding to nearest even. *)
Definition of_Z (z : Z) : float := binary_normalize prec emax z 0 false.

Definition sub : float -> float -> float := SFsub prec emax.
Definition div : float -> float -> float := SFdiv prec emax.

Definition zero : float := S754_zero false.
Definition one : float := of_Z 1.

(** Either of the two zeros. *)
Definition is_zero (x : float) : bool :=
  match x with
  | S754_zero _ => true
  | _ => false
  end.

(** Conversion to an integer as C converts a [float] to a [long]: the fraction is
    dropped. Infinities and NaN, for which C leaves the result open, give 0. *)
Definition to_Z (x : float) : Z :=
  match x with
  | S754_finite s m e => cond_Zopp s (Z.shiftl (Zpos m) e)
  | _ => 0
  end.

(** The floats the operations can return: canonical mantissa, exponent in range. *)
Definition valid (x : float) : bool := valid_binary prec emax x.

End Binary32.

Import Binary32.

(** ** The world of the sketch *)

(** What [Serial.print] and [Serial.println] accept in the sketch: a string, an
    [int] or [long], or a float with the number of decimals to show. The formatting
    itself is the serial library's; the model keeps the value and the decimals. *)
Inductive printed : Type :=
| PStr (s : string)
| PInt (z : Z)
| PFloat (x : float) (decimals : nat).

Inductive tx_item : Type :=
| TxPrint (p : printed)
| TxPrintln (p : printed).

(** Modelled from the spec: the instrument state of the absent HX711 driver. The
    spec's data model gives [offset : integer] and [scale : float]; [TARE_TIMES] is
    the "fixed internal averaging count k" of [tare()], a constant of the driver
    whose literal the sketch never passes and the sources do not show. *)
Record hx711 : Type := {
  OFFSET : Z;
  SCALE : float;
  TARE_TIMES : nat
}.

Record World : Type := {
  loadcell : hx711;         (* HX711 loadcell; *)
  adc : nat -> Z;           (* the transducer: the i-th conversion the channel delivers *)
  conversions : nat;        (* conversions taken from the channel so far *)
  scale : float;            (* float scale = 1.; *)
  rx : list ascii;          (* bytes waiting on the serial line *)
  tx : list tx_item         (* what has been printed, oldest first *)
}.

Definition with_loadcell (w : World) (h : hx711) : World :=
  {| loadcell := h; adc := adc w; conversions := conversions w;
     scale := scale w; rx := rx w; tx := tx w |}.

Definition with_conversions (w : World) (n : nat) : World :=
  {| loadcell := loadcell w; adc := adc w; conversions := n;
     scale := scale w; rx := rx w; tx := tx w |}.

Definition with_scale (w : World) (x : float) : World :=
  {| loadcell := loadcell w; adc := adc w; conversions := conversions w;
     scale := x; rx := rx w; tx := tx w |}.

Definition with_rx (w : World) (l : list ascii) : World :=
  {| loadcell := loadcell w; adc := adc w; conversions := conversions w;
     scale := scale w; rx := l; tx := tx w |}.

Definition with_tx (w : World) (l : list tx_item) : World :=
  {| loadcell := loadcell w; adc := adc w; conversions := conversions w;
     scale := scale w; rx := rx w; tx := l |}.

(** ** State passing *)

Definition M (A : Type) : Type := World -> A * World.

Definition ret {A : Type} (a : A) : M A := fun w => (a, w).

Definition bind {A B : Type} (m : M A) (f : A -> M B) : M B :=
  fun w => let (a, w') := m w in f a w'.

Definition gets {A : Type} (f : World -> A) : M A := fun w => (f w, w).

Definition modify (f : World -> World) : M unit := fun w => (tt, f w).

Declare Scope sketch_scope.
Delimit Scope sketch_scope with sketch.
Notation "x <- m ;; k" := (bind m (fun x => k))
  (at level 61, m at next level, right associativity) : sketch_scope.
Notation "m ;; k" := (bind m (fun _ => k))
  (at level 61, right associativity) : sketch_scope.
Local Open Scope sketch_scope.

(** The world a computation leaves behind, and the value it returns. *)
Definition after {A : Type} (m : M A) (w : World) : World := snd (m w).

Definition returned {A : Type} (m : M A) (w : World) : A := fst (m w).

(** ** The HX711 driver *)

Module HX711.

(** Modelled from the spec: a fresh instrument has scale 1.0 and, before the first
    tare, offset 0. *)
Definition init (k : nat) : hx711 :=
  {| OFFSET := 0; SCALE := one; TARE_TIMES := k |}.

(** [loadcell.begin(dout, sck)] binds the two pins; the channel itself is the
    world's [adc]. *)
Definition begin (dout sck : Z) : M unit := ret tt.

(** Modelled from the spec: [read_raw() -> integer] returns the next conversion of
    the channel, uncorrected, and consumes it. The wait for the conversion is not
    modelled: the channel always has a next sample. *)
Definition read : M Z :=
  fun w => (adc w (conversions w), with_conversions w (S (conversions w))).

(** The sum of [times] conversions read one after the other. *)
Fixpoint read_sum (times : nat) : M Z :=
  match times with
  | O => ret 0
  | S n => r <- read ;; s <- read_sum n ;; ret (r + s)
  end.

(** Modelled from the spec: [read_average(n) -> float] "calls read_raw() exactly n
    times sequentially and returns the arithmetic mean", here the sum of the samples
    divided by [n] in binary32. *)
Definition read_average (times : nat) : M float :=
  s <- read_sum times ;;
  ret (div (of_Z s) (of_Z (Z.of_nat times))).

(** Modelled from the spec: [get_value(n)] "returns read_average(n) - offset". *)
Definition get_value (times : nat) : M float :=
  a <- read_average times ;;
  o <- gets (fun w => OFFSET (loadcell w)) ;;
  ret (sub a (of_Z o)).

(** Modelled from the spec: [get_units(n)] "returns get_value(n) / scale". *)
Definition get_units (times : nat) : M float :=
  v <- get_value times ;;
  s <- gets (fun w => SCALE (loadcell w)) ;;
  ret (div v s).

Definition set_offset (o : Z) : M unit :=
  modify (fun w =>
    with_loadcell w {| OFFSET := o; SCALE := SCALE (loadcell w);
                       TARE_TIMES := TARE_TIMES (loadcell w) |}).

(** Modelled from the spec: [tare()] "sets offset = read_average(k) for some fixed
    internal averaging count k". The offset is an integer, so the mean is converted
    as C converts a float to a long. *)
Definition tare : M unit :=
  k <- gets (fun w => TARE_TIMES (loadcell w)) ;;
  a <- read_average k ;;
  set_offset (to_Z a).

(** Modelled from the spec: [set_scale(value)] "sets scale = value unconditionally". *)
Definition set_scale (value : float) : M unit :=
  modify (fun w =>
    with_loadcell w {| OFFSET := OFFSET (loadcell w); SCALE := value;
                       TARE_TIMES := TARE_TIMES (loadcell w) |}).

End HX711.

(** ** The serial line *)

Module Serial.

Definition begin (baud : Z) : M unit := ret tt.

(** [Serial.available()]: the number of bytes waiting. *)
Definition available : M Z := gets (fun w => Z.of_nat (List.length (rx w))).

(** [Serial.read()]: the first waiting byte as an [int], or -1 when none waits. *)
Definition read : M Z :=
  fun w =>
    match rx w with
    | c :: l => (Z.of_nat (nat_of_ascii c), with_rx w l)
    | [] => (-1, w)
    end.

Definition emit (i : tx_item) : M unit := modify (fun w => with_tx w (tx w ++ [i])).

Definition print_str (s : string) : M unit := emit (TxPrint (PStr s)).
Definition println_str (s : string) : M unit := emit (TxPrintln (PStr s)).
Definition println_int (z : Z) : M unit := emit (TxPrintln (PInt z)).

(** [Serial.println(x, decimals)]; [Serial.println(x)] shows two decimals. *)
Definition println_float (x : float) (decimals : nat) : M unit :=
  emit (TxPrintln (PFloat x decimals)).

Definition is_digit (c : ascii) : bool :=
  ((48 <=? nat_of_ascii c) && (nat_of_ascii c <=? 57))%nat.

Definition digit_value (c : ascii) : Z := Z.of_nat (nat_of_ascii c) - 48.

(** The digits a list of bytes starts with, and what follows them. *)
Fixpoint span_digits (l : list ascii) : list ascii * list ascii :=
  match l with
  | c :: l' =>
      if is_digit c
      then let (ds, r) := span_digits l' in (c :: ds, r)
      else ([], l)
  | [] => ([], [])
  end.

Definition decimal (ds : list ascii) : Z :=
  fold_left (fun acc c => 10 * acc + digit_value c) ds 0.

(** Modelled from the spec: "a floating-point literal immediately following on the
    same input stream". A literal is an optional minus sign, digits, and optionally
    a point and more digits, with at least one digit in all. The result is the
    sign, the digits before and after the point, and the bytes after the literal;
    [None] when the bytes do not start with a literal. *)
Definition scan_literal (l : list ascii)
  : option (bool * list ascii * list ascii * list ascii) :=
  let (neg, l1) :=
    match l with
    | "-"%char :: l' => (true, l')
    | _ => (false, l)
    end in
  let (ip, l2) := span_digits l1 in
  let (fp, l3) :=
    match l2 with
    | "."%char :: l' => span_digits l'
    | _ => ([], l2)
    end in
  match ip ++ fp with
  | [] => None
  | _ :: _ => Some (neg, ip, fp, l3)
  end.

(** The binary32 value of a literal: its digits as an integer, divided by the
    power of ten that the digits after the point call for. *)
Definition literal_value (neg : bool) (ip fp : list ascii) : float :=
  div (of_Z (cond_Zopp neg (decimal (ip ++ fp))))
      (of_Z (10 ^ Z.of_nat (List.length fp))).

(** Modelled from the spec: [Serial.parseFloat()] reads the literal that follows
    and returns its value; bytes that do not start with a literal are left where
    they are and the result is "an implementation-defined numeric default (zero)
    rather than a signaled failure". *)
Definition parseFloat : M float :=
  fun w =>
    match scan_literal (rx w) with
    | Some (neg, ip, fp, rest) => (literal_value neg ip fp, with_rx w rest)
    | None => (zero, w)
    end.

End Serial.

(** ** The sketch *)

(* HX711 circuit wiring *)
Definition LOADCELL_DOUT_PIN : Z := 2.
Definition LOADCELL_SCK_PIN : Z := 3.

(** [int const avg_count = 10;] *)
Definition avg_count : nat := 10.

(** [delay(ms)]: time is not part of the world. *)
Definition delay (ms : Z) : M unit := ret tt.

Definition TAB : string := String (ascii_of_nat 9) EmptyString.

(** The labels of the diagnostic readings; each ends in two tabs. *)
Definition label_read : string := (" + read: " ++ TAB ++ TAB)%string.
Definition label_read_average : string := (" + read average: " ++ TAB ++ TAB)%string.
Definition label_get_value : string := (" + get value: " ++ TAB ++ TAB)%string.
Definition label_get_units : string := (" + get units: " ++ TAB ++ TAB)%string.

(** [char const cmd = Serial.read();]: the [int] cut down to a byte. *)
Definition char_of_int (z : Z) : ascii := ascii_of_nat (Z.to_nat (z mod 256)).

Definition setup : M unit :=
  Serial.begin 57600 ;;
  HX711.begin LOADCELL_DOUT_PIN LOADCELL_SCK_PIN ;;
  delay 1000 ;;
  Serial.println_str "Initializing scale" ;;
  Serial.print_str "  + Averaging: " ;;
  Serial.println_int (Z.of_nat avg_count) ;;
  Serial.print_str label_read ;;
  r <- HX711.read ;;
  Serial.println_int r ;;
  Serial.print_str label_read_average ;;
  a <- HX711.read_average 20 ;;
  Serial.println_float a 2 ;;
  Serial.print_str label_get_value ;;
  v <- HX711.get_value 5 ;;
  Serial.println_float v 2 ;;
  Serial.print_str label_get_units ;;
  u <- HX711.get_units 5 ;;
  Serial.println_float u 1 ;;
  Serial.println_str "Commands: (R)ead, (T)are, (C)alibrate, (A)DC".

(** One pass of [loop()]: when a byte waits, read it and switch on it. *)
Definition loop : M unit :=
  n <- Serial.available ;;
  if 0 <? n then
    c <- Serial.read ;;
    let cmd := char_of_int c in
    if Ascii.eqb cmd "C" then
      x <- Serial.parseFloat ;;
      modify (fun w => with_scale w x) ;;
      s <- gets scale ;;
      HX711.set_scale s ;;
      Serial.print_str "Scale calibrated: " ;;
      s' <- gets scale ;;
      Serial.println_float s' 2
    else if Ascii.eqb cmd "R" then
      u <- HX711.get_units avg_count ;;
      Serial.println_float u 1
    else if Ascii.eqb cmd "T" then
      HX711.tare
    else if Ascii.eqb cmd "A" then
      a <- HX711.read_average avg_count ;;
      Serial.println_float a 2
    else
      ret tt
  else
    ret tt.

(** [n] passes of [loop()], one after the other. *)
Fixpoint run (n : nat) (w : World) : World :=
  match n with
  | O => w
  | S n' => run n' (after loop w)
  end.

(** The world at power-on: a fresh instrument whose tare count is [k], the signal
    [signal] on the channel, [input] waiting on the serial line, and the sketch's
    [float scale = 1.]. *)
Definition power_on (k : nat) (signal : nat -> Z) (input : list ascii) : World :=
  {| loadcell := HX711.init k; adc := signal; conversions := 0;
     scale := one; rx := input; tx := [] |}.

(** The sketch as the board runs it: [setup()] once, then [loop()] again and again. *)
Definition sketch (n : nat) (w : World) : World := run n (after setup w).

(** The arguments that the [C] commands of the first [n] passes hand to
    [set_scale], oldest first. *)
Fixpoint calibrations (n : nat) (w : World) : list float :=
  match n with
  | O => []
  | S n' =>
      match rx w with
      | c :: rest =>
          if Ascii.eqb c "C"
          then returned Serial.parseFloat (with_rx w rest) :: calibrations n' (after loop w)
          else calibrations n' (after loop w)
      | [] => calibrations n' (after loop w)
      end
  end.

(** A world to try the sketch on: a ramp 0, 1, 2, ... on the channel, nothing
    on the line, an instrument as it is at power-on. The tare count of the
    examples is an arbitrary one. *)
Definition ramp_world : World := power_on 10 (fun i => Z.of_nat i) [].

(** The same with an unknown byte ahead of a read command. *)
Definition frame_world : World := with_rx ramp_world ["Z"%char; "R"%char].

(** The two command-line scenarios: a constant signal and the bytes of the
    scenario on the line. *)
Definition calibrate_world : World :=
  power_on 10 (fun _ => 100) ["C"; "1"; "0"; "."; "0"; "010"; "R"]%char.

Definition tare_world : World := power_on 10 (fun _ => 50) ["T"; "R"]%char.

(** The four bytes [loop()] has a case for. *)
Definition is_command (c : ascii) : bool :=
  Ascii.eqb c "C" || Ascii.eqb c "R" || Ascii.eqb c "T" || Ascii.eqb c "A".

(** The sum and the binary32 mean of the [n] conversions from position [from] on. *)
Definition window_sum (signal : nat -> Z) (from n : nat) : Z :=
  fold_right Z.add 0 (map signal (seq from n)).

Definition window_mean (signal : nat -> Z) (from n : nat) : float :=
  div (of_Z (window_sum signal from n)) (of_Z (Z.of_nat n)).

(** ** The lantern notebook

    The notebook tabulates a cylindrical lantern: buoyant volume, height, areas,
    film and tissue masses, payload and drag. Its numbers are Python and NumPy
    floats, IEEE 754 binary64; integers that meet a float are converted first. *)

Module Binary64.

Definition prec : Z := 53.
Definition emax : Z := 1024.

Definition float : Type := spec_float.

Definition of_Z (z : Z) : float := binary_normalize prec emax z 0 false.

Definition add : float -> float -> float := SFadd prec emax.
Definition sub : float -> float -> float := SFsub prec emax.
Definition mul : float -> float -> float := SFmul prec emax.
Definition div : float -> float -> float := SFdiv prec emax.

(** The float a decimal literal denotes: the quotient [n / d] of its digits by
    its power of ten, rounded once. Both are below 2^53 wherever it is used. *)
Definition literal (n d : Z) : float := div (of_Z n) (of_Z d).

(** [np.pi], 3.141592653589793. *)
Definition pi : float := literal 3141592653589793 1000000000000000.

End Binary64.

(** The materials cell of the notebook. *)
Definition rho_air : Binary64.float := Binary64.literal 129 100.          (* g/L *)
Definition rho_h2 : Binary64.float := Binary64.literal 9 100.             (* g/L *)
Definition rho_he : Binary64.float := Binary64.literal 18 100.            (* g/L *)
Definition rhos_mylar : Binary64.float := Binary64.literal 1634 1000000.  (* g/cm2 *)
Definition rhos_tissue : Binary64.float := Binary64.literal 1414 1000000. (* g/cm2 *)

Definition cm3_per_L : Z := 1000.

(** A Python [dict] from strings to floats, in insertion order: assigning to a
    key that is present replaces its value in place, assigning to a new key adds
    it at the end. *)
Definition dict : Type := list (string * Binary64.float).

Fixpoint dict_get (k : string) (d : dict) : option Binary64.float :=
  match d with
  | [] => None
  | (k', v) :: d' => if String.eqb k k' then Some v else dict_get k d'
  end.

Fixpoint dict_set (k : string) (v : Binary64.float) (d : dict) : dict :=
  match d with
  | [] => [(k, v)]
  | (k', v') :: d' =>
      if String.eqb k k' then (k', v) :: d' else (k', v') :: dict_set k v d'
  end.

Module LanternModel.

Import Binary64.

Inductive exn : Type :=
| KeyError (what : string)
| ValueError (what : string).

(** The attributes [__init__] gives an instance. [m_lift] and the entries of the
    table are floats; the radius, the shell offset and the wind speed are the
    integers the notebook passes. *)
Record t : Type := {
  c_d_cyl : float;
  m_lift : float;
  r_cyl : Z;
  t_shell_offset : Z;
  u_wind : Z;
  prop_table : dict
}.

Definition with_prop_table (self : t) (d : dict) : t :=
  {| c_d_cyl := c_d_cyl self; m_lift := m_lift self; r_cyl := r_cyl self;
     t_shell_offset := t_shell_offset self; u_wind := u_wind self;
     prop_table := d |}.

Definition prop_keys : list string :=
  ["Volume (L)"; "H (cm)"; "S (cm2)"; "So (cm2)"; "Mylar mass (g)";
   "Tissue mass (g)"; "Payload cap. (g)"; "Fd (N)"]%string.

(** [self.prop_keys[i]]; the indices the class uses are all in range. *)
Definition key (i : nat) : string := nth i prop_keys EmptyString.

(** A method: it returns a value or raises, and may have changed [self] either way. *)
Definition Py (A : Type) : Type := t -> (exn + A) * t.

Definition py_ret {A : Type} (a : A) : Py A := fun self => (inr a, self).

Definition py_raise {A : Type} (e : exn) : Py A := fun self => (inl e, self).

Definition py_bind {A B : Type} (m : Py A) (f : A -> Py B) : Py B :=
  fun self =>
    match m self with
    | (inr a, self') => f a self'
    | (inl e, self') => (inl e, self')
    end.

Declare Scope py_scope.
Delimit Scope py_scope with py.
Notation "x <- m ;; k" := (py_bind m (fun x => k))
  (at level 61, m at next level, right associativity) : py_scope.
Notation "m ;; k" := (py_bind m (fun _ => k))
  (at level 61, right associativity) : py_scope.
Local Open Scope py_scope.

(** [self.prop_table[k]]: a key that is not in the table raises [KeyError]. *)
Definition table_get (k : string) : Py float :=
  fun self =>
    match dict_get k (prop_table self) with
    | Some v => (inr v, self)
    | None => (inl (KeyError k), self)
    end.

(** [self.prop_table[k] = v] *)
Definition table_set (k : string) (v : float) : Py unit :=
  fun self => (inr tt, with_prop_table self (dict_set k v (prop_table self))).

Definition payload_capacity : Py float :=
  mylar <- table_get (key 4) ;;
  tissue <- table_get (key 5) ;;
  fun self => (inr (sub (sub (m_lift self) mylar) tissue), self).

Definition drag : Py float :=
  h <- table_get (key 1) ;;
  fun self =>
    let ho := add h (of_Z (2 * t_shell_offset self)) in
    let ro := r_cyl self + t_shell_offset self in
    let Aref := mul ho (of_Z (2 * ro)) in
    (inr (div (div (mul (mul (mul (mul (literal 1 2) (div rho_air (of_Z cm3_per_L)))
                                  (of_Z (u_wind self ^ 2)))
                             Aref)
                        (c_d_cyl self))
                   (of_Z 1000))
              (of_Z 100)),
     self).

Definition _invalidate_prop_table : Py unit :=
  p <- payload_capacity ;;
  table_set (key 6) p ;;
  d <- drag ;;
  table_set (key 7) d.

Definition __getitem__ (k : string) : Py float := table_get k.

(** [key not in self.prop_keys] *)
Definition allowed (k : string) : bool := existsb (String.eqb k) prop_keys.

Definition __setitem__ (k : string) (item : float) : Py unit :=
  if negb (allowed k) then py_raise (KeyError "Key not in allowed keys")
  else
    table_set k item ;;
    _invalidate_prop_table.

(** The statements of [__init__] from [v_h2 = m_lift/d_rho] on, which the two
    cells of the class share word for word: the geometry for a density difference
    [d_rho] and the table filled from it. [m_lift] is the NumPy float the notebook
    passes, so a division by zero gives an infinity or a NaN and raises nothing. *)
Definition fill (m_lift0 : float) (d_rho : float) (r_cyl0 t_offset u_wind0 : Z)
  : exn + t :=
  let v_h2 := div m_lift0 d_rho in
  let h_cyl := div (mul v_h2 (of_Z cm3_per_L)) (mul pi (of_Z (r_cyl0 ^ 2))) in
  let S_cyl := add (mul h_cyl (mul (mul (of_Z 2) pi) (of_Z r_cyl0)))
                   (mul (mul (of_Z 2) pi) (of_Z (r_cyl0 ^ 2))) in
  let ho := add h_cyl (of_Z (2 * t_offset)) in
  let ro := r_cyl0 + t_offset in
  let So_cyl := add (mul ho (mul (mul (of_Z 2) pi) (of_Z ro)))
                    (mul (mul (of_Z 2) pi) (of_Z (ro ^ 2))) in
  let m_mylar := mul rhos_mylar S_cyl in
  let m_tissue := mul rhos_tissue So_cyl in
  let self0 :=
    {| c_d_cyl := literal 117 100; m_lift := m_lift0; r_cyl := r_cyl0;
       t_shell_offset := t_offset; u_wind := u_wind0; prop_table := [] |} in
  match
    (table_set (key 0) v_h2 ;;
     table_set (key 1) h_cyl ;;
     table_set (key 2) S_cyl ;;
     table_set (key 3) So_cyl ;;
     table_set (key 4) m_mylar ;;
     table_set (key 5) m_tissue ;;
     p <- payload_capacity ;;
     table_set (key 6) p ;;
     d <- drag ;;
     table_set (key 7) d) self0
  with
  | (inr _, self) => inr self
  | (inl e, _) => inl e
  end.

(** [LanternModel(m_lift, r_cyl, t_offset, u_wind)], the hydrogen lantern. *)
Definition __init__ (m_lift0 : float) (r_cyl0 t_offset u_wind0 : Z) : exn + t :=
  let d_rho := sub rho_air rho_h2 in
  fill m_lift0 d_rho r_cyl0 t_offset u_wind0.


(** The derived entries are up to date: the table holds exactly the keys of the
    class, in their order, and what it holds for the payload and the drag is what
    [payload_capacity()] and [drag()] return now. *)
Definition up_to_date (self : t) : Prop :=
  map fst (prop_table self) = prop_keys /\
  fst (__getitem__ (key 6) self) = fst (payload_capacity self) /\
  fst (__getitem__ (key 7) self) = fst (drag self).

End LanternModel.

(** A lantern to try the class on: the 100 g hydrogen lantern of the notebook,
    radius 20 cm, shell offset 2 cm, wind 100 cm/s. *)
Definition lantern_100 : LanternModel.t :=
  match LanternModel.__init__ (Binary64.of_Z 100) 20 2 100 with
  | inr self => self
  | inl _ =>
      {| LanternModel.c_d_cyl := Binary64.of_Z 0; LanternModel.m_lift := Binary64.of_Z 0;
         LanternModel.r_cyl := 0; LanternModel.t_shell_offset := 0;
         LanternModel.u_wind := 0; LanternModel.prop_table := [] |}
  end.

(** * Facts *)

(** ** binary32 arithmetic

    The two facts the instrument needs: a quotient is always a canonical float, and
    dividing a canonical float by 1.0 gives it back. They are proved on the
    definitions of the rounding functions: [shr_fexp] brings a mantissa to its
    canonical exponent, and shifting left then right by the same amount is exact. *)

Section Binary32Facts.

(** The canonical exponent of binary32: 24 bits of mantissa, subnormals at -149. *)
Lemma fexp32 e : fexp prec emax e = Z.max (e - 24) (-149).
Proof. reflexivity. Qed.

(** The number of binary digits of a positive integer, by its logarithm. *)
Lemma Zdigits2_log2 m : 0 < m -> Zdigits2 m = Z.log2 m + 1.
Proof.
  destruct m as [|p|p]; try lia. intros _. simpl.
  induction p as [p IH|p IH|]; simpl; try reflexivity.
  - destruct p; simpl in *; lia.
  - destruct p; simpl in *; lia.
Qed.

Lemma Zdigits2_nonneg m : 0 <= Zdigits2 m.
Proof. destruct m; simpl; lia. Qed.

Lemma Zdigits2_mono a b : 0 <= a <= b -> Zdigits2 a <= Zdigits2 b.
Proof.
  intros [Ha Hab]. destruct (Z.eq_dec a 0) as [->|Hn].
  - apply Zdigits2_nonneg.
  - rewrite !Zdigits2_log2 by lia. pose proof (Z.log2_le_mono a b Hab). lia.
Qed.

(** Dropping [k] low bits drops [k] digits, down to none. *)
Lemma Zdigits2_shiftr m k :
  0 <= m -> 0 <= k -> Zdigits2 (Z.shiftr m k) = Z.max 0 (Zdigits2 m - k).
Proof.
  intros Hm Hk. destruct (Z.eq_dec m 0) as [->|Hn].
  - rewrite Z.shiftr_0_l. simpl. lia.
  - assert (Hpos : 0 < m) by lia.
    pose proof (Z.shiftr_nonneg m k) as Hs.
    destruct (Z.eq_dec (Z.shiftr m k) 0) as [E|E].
    + rewrite E. simpl.
      apply Z.shiftr_eq_0_iff in E. destruct E as [E|[_ E]]; [lia|].
      rewrite Zdigits2_log2 by lia. lia.
    + assert (0 < Z.shiftr m k) by lia.
      rewrite (Zdigits2_log2 (Z.shiftr m k)) by lia.
      rewrite Z.log2_shiftr by lia. rewrite (Zdigits2_log2 m) by lia.
      assert (k <= Z.log2 m).
      { destruct (Z_lt_le_dec (Z.log2 m) k) as [L|L]; [|lia].
        exfalso. apply E. apply Z.shiftr_eq_0; lia. }
      lia.
Qed.

(** A number that reaches [2 ^ k] has more than [k] digits. *)
Lemma Zdigits2_lower q k : 0 <= k -> 2 ^ k <= q -> k + 1 <= Zdigits2 q.
Proof.
  intros Hk Hq. assert (0 < q) by (pose proof (Z.pow_pos_nonneg 2 k); lia).
  rewrite Zdigits2_log2 by lia.
  pose proof (Z.log2_le_mono _ _ Hq) as L. rewrite Z.log2_pow2 in L by lia. lia.
Qed.

Lemma Zdigits2_bounds m : 0 < m -> 2 ^ (Zdigits2 m - 1) <= m < 2 ^ Zdigits2 m.
Proof.
  intros Hm. rewrite Zdigits2_log2 by lia.
  pose proof (Z.log2_spec m Hm). replace (Z.log2 m + 1 - 1) with (Z.log2 m) by lia.
  replace (Z.log2 m + 1) with (Z.succ (Z.log2 m)) by lia. lia.
Qed.

(** One step of the rounding shift halves the mantissa; [p] steps shift it by [p]. *)
Lemma shr_1_m mrs : 0 <= shr_m mrs -> shr_m (shr_1 mrs) = Z.div2 (shr_m mrs).
Proof. destruct mrs as [m r s]. simpl. destruct m as [|[p|p|]|p]; simpl; try reflexivity; lia. Qed.

Lemma iter_pos_shr_1_m p : forall mrs, 0 <= shr_m mrs ->
  shr_m (iter_pos shr_1 p mrs) = Z.shiftr (shr_m mrs) (Zpos p).
Proof.
  induction p as [p IH|p IH|]; intros mrs Hm; simpl iter_pos.
  - assert (H1 : 0 <= shr_m (shr_1 mrs)) by (rewrite shr_1_m by lia; apply Z.div2_nonneg; lia).
    assert (H2 : 0 <= shr_m (iter_pos shr_1 p (shr_1 mrs))) by (rewrite IH by lia; apply Z.shiftr_nonneg; lia).
    rewrite IH by lia. rewrite IH by lia. rewrite shr_1_m by lia.
    rewrite Z.div2_spec. rewrite !Z.shiftr_shiftr by lia. f_equal. lia.
  - assert (H2 : 0 <= shr_m (iter_pos shr_1 p mrs)) by (rewrite IH by lia; apply Z.shiftr_nonneg; lia).
    rewrite IH by lia. rewrite IH by lia.
    rewrite !Z.shiftr_shiftr by lia. f_equal. lia.
  - rewrite shr_1_m by lia. apply Z.div2_spec.
Qed.

(** [shr_fexp] leaves a mantissa at its canonical exponent, provided the exponent
    it starts from is not above it. *)
Lemma shr_fexp_canonical m e l :
  0 <= m -> e <= fexp prec emax (Zdigits2 m + e) ->
  0 <= shr_m (fst (shr_fexp prec emax m e l)) /\
  fexp prec emax (Zdigits2 (shr_m (fst (shr_fexp prec emax m e l))) + snd (shr_fexp prec emax m e l))
  = snd (shr_fexp prec emax m e l).
Proof.
  intros Hm He. unfold shr_fexp, shr.
  assert (Hr : shr_m (shr_record_of_loc m l) = m) by (destruct l as [|[]]; reflexivity).
  destruct (fexp prec emax (Zdigits2 m + e) - e) as [|p|p] eqn:En; simpl fst; simpl snd.
  - rewrite Hr. split; [lia|]. lia.
  - rewrite iter_pos_shr_1_m by (rewrite Hr; lia). rewrite Hr.
    split; [apply Z.shiftr_nonneg; lia|].
    rewrite Zdigits2_shiftr by lia.
    pose proof (Zdigits2_nonneg m). rewrite fexp32 in *. lia.
  - lia.
Qed.

(** Rounding to nearest even moves a mantissa up by at most one. *)
Lemma round_nearest_even_bounds m l : m <= round_nearest_even m l <= m + 1.
Proof. destruct l as [|[]]; simpl; try lia. destruct (Z.even m); lia. Qed.

(** Hence the rounding of a mantissa that starts at or below its canonical
    exponent is a canonical float. *)
Lemma binary_round_aux_valid sx mx ex lx :
  0 <= mx -> ex <= fexp prec emax (Zdigits2 mx + ex) ->
  valid (binary_round_aux prec emax sx mx ex lx) = true.
Proof.
  intros Hm He. unfold valid, binary_round_aux.
  destruct (shr_fexp_canonical mx ex lx Hm He) as [H0 Hc].
  destruct (shr_fexp prec emax mx ex lx) as [mrs' e']. simpl fst in *; simpl snd in *.
  set (m'' := round_nearest_even (shr_m mrs') (loc_of_shr_record mrs')).
  pose proof (round_nearest_even_bounds (shr_m mrs') (loc_of_shr_record mrs')) as Hb.
  fold m'' in Hb.
  assert (Hm'' : 0 <= m'') by lia.
  assert (He' : e' <= fexp prec emax (Zdigits2 m'' + e')).
  { pose proof (Zdigits2_mono (shr_m mrs') m'' ltac:(lia)). rewrite fexp32 in *. lia. }
  destruct (shr_fexp_canonical m'' e' loc_Exact Hm'' He') as [H1 Hc'].
  destruct (shr_fexp prec emax m'' e' loc_Exact) as [mrs'' e'']. simpl fst in *; simpl snd in *.
  destruct (shr_m mrs'') as [|m|m]; try reflexivity.
  destruct (e'' <=? emax - prec) eqn:El; try reflexivity.
  simpl. unfold bounded, canonical_mantissa. rewrite El, andb_true_r.
  apply Z.eqb_eq. exact Hc'.
Qed.

Lemma div_eucl_div_mod a b : Z.div_eucl a b = (a / b, a mod b).
Proof. unfold Z.div, Z.modulo. destruct (Z.div_eucl a b); reflexivity. Qed.

(** The integer quotient that [SFdiv] hands to the rounding has enough digits for
    its exponent: it starts at or below its canonical exponent. *)
Lemma SFdiv_core_binary_spec m1 e1 m2 e2 :
  0 < m1 -> 0 < m2 ->
  let '(q, e', _) := SFdiv_core_binary prec emax m1 e1 m2 e2 in
  0 <= q /\ e' <= fexp prec emax (Zdigits2 q + e').
Proof.
  intros H1 H2. unfold SFdiv_core_binary.
  set (d1 := Zdigits2 m1). set (d2 := Zdigits2 m2).
  set (e' := Z.min (fexp prec emax (d1 + e1 - (d2 + e2))) (e1 - e2)).
  set (s := e1 - e2 - e').
  assert (Hs : 0 <= s) by (unfold s, e'; lia).
  set (m' := match s with Z.pos _ => Z.shiftl m1 s | 0 => m1 | Z.neg _ => 0 end).
  assert (Hm' : m' = m1 * 2 ^ s).
  { unfold m'. generalize s Hs. intros [|p|p] Hp; [rewrite Z.pow_0_r; lia| |lia].
    rewrite Z.shiftl_mul_pow2 by lia. reflexivity. }
  rewrite div_eucl_div_mod.
  assert (Hq : 0 <= m' / m2).
  { apply Z.div_pos; [|lia]. rewrite Hm'. pose proof (Z.pow_pos_nonneg 2 s); lia. }
  split; [exact Hq|].
  assert (Hd : d1 + s - d2 <= Zdigits2 (m' / m2)).
  { destruct (Z_le_gt_dec (d1 + s - d2) 0) as [L|L].
    - pose proof (Zdigits2_nonneg (m' / m2)). lia.
    - replace (d1 + s - d2) with ((d1 + s - d2 - 1) + 1) by lia.
      apply Zdigits2_lower; [lia|].
      pose proof (Zdigits2_bounds m1 H1) as [B1 _]. fold d1 in B1.
      pose proof (Zdigits2_bounds m2 H2) as [_ B2]. fold d2 in B2.
      pose proof (Zdigits2_nonneg m2). fold d2 in H.
      assert (0 < d1) by (unfold d1; rewrite Zdigits2_log2 by lia; pose proof (Z.log2_nonneg m1); lia).
      apply Z.div_le_lower_bound; [lia|].
      rewrite Hm'.
      apply Z.le_trans with (2 ^ d2 * 2 ^ (d1 + s - d2 - 1)).
      + apply Z.mul_le_mono_nonneg_r; [apply Z.pow_nonneg; lia | lia].
      + rewrite <- Z.pow_add_r by lia.
        replace (d2 + (d1 + s - d2 - 1)) with ((d1 - 1) + s) by lia.
        rewrite Z.pow_add_r by lia.
        apply Z.mul_le_mono_nonneg_r; [apply Z.pow_nonneg; lia | lia]. }
  rewrite fexp32. unfold e' at 1. rewrite fexp32. unfold s in Hd. lia.
Qed.

(** Every quotient is a canonical float. *)
Lemma SFdiv_valid x y : valid (SFdiv prec emax x y) = true.
Proof.
  destruct x as [sx|sx| |sx mx ex], y as [sy|sy| |sy my ey]; try reflexivity.
  unfold SFdiv.
  pose proof (SFdiv_core_binary_spec (Zpos mx) ex (Zpos my) ey ltac:(lia) ltac:(lia)) as H.
  destruct (SFdiv_core_binary prec emax (Z.pos mx) ex (Z.pos my) ey) as [[q e'] l].
  destruct H as [Hq He]. apply binary_round_aux_valid; assumption.
Qed.

(** Shifting right what was shifted left is exact: no bit is lost, and the
    round and sticky bits stay clear. *)
Lemma shr_1_double m : shr_1 {| shr_m := 2 * m; shr_r := false; shr_s := false |}
  = {| shr_m := m; shr_r := false; shr_s := false |}.
Proof. destruct m; reflexivity. Qed.

Lemma iter_pos_shr_1_exact p : forall m,
  iter_pos shr_1 p {| shr_m := 2 ^ Zpos p * m; shr_r := false; shr_s := false |}
  = {| shr_m := m; shr_r := false; shr_s := false |}.
Proof.
  induction p as [p IH|p IH|]; intros m; cbn [iter_pos].
  - replace (2 ^ Zpos p~1 * m) with (2 * (2 ^ Zpos p * (2 ^ Zpos p * m))).
    + rewrite shr_1_double, IH, IH. reflexivity.
    + replace (Zpos p~1) with (1 + (Zpos p + Zpos p)) by lia.
      rewrite !Z.pow_add_r by lia. rewrite Z.pow_1_r. ring.
  - replace (2 ^ Zpos p~0 * m) with (2 ^ Zpos p * (2 ^ Zpos p * m)).
    + rewrite IH, IH. reflexivity.
    + replace (Zpos p~0) with (Zpos p + Zpos p) by lia.
      rewrite !Z.pow_add_r by lia. ring.
  - apply shr_1_double.
Qed.

(** A canonical mantissa shifted left by [t] comes back from [shr_fexp] as it was. *)
Lemma shr_fexp_exact_shift m t e :
  0 < m -> 0 <= t -> fexp prec emax (Zdigits2 m + (e + t)) = e + t ->
  shr_fexp prec emax (2 ^ t * m) e loc_Exact
  = ({| shr_m := m; shr_r := false; shr_s := false |}, e + t).
Proof.
  intros Hm Ht Hc. unfold shr_fexp.
  assert (Hd : Zdigits2 (2 ^ t * m) = Zdigits2 m + t).
  { pose proof (Z.pow_pos_nonneg 2 t ltac:(lia) Ht).
    rewrite !Zdigits2_log2 by nia.
    rewrite Z.mul_comm, Z.log2_mul_pow2 by lia. lia. }
  rewrite Hd. replace (Zdigits2 m + t + e) with (Zdigits2 m + (e + t)) by lia.
  rewrite Hc. replace (e + t - e) with t by lia.
  unfold shr. simpl shr_record_of_loc.
  destruct t as [|p|p]; [|rewrite iter_pos_shr_1_exact; reflexivity|lia].
  rewrite Z.pow_0_r, Z.mul_1_l, Z.add_0_r. reflexivity.
Qed.

Lemma one_eq : one = S754_finite false 8388608 (-23).
Proof. reflexivity. Qed.

(** Dividing a canonical float by 1.0 gives it back, bit for bit. *)
Lemma SFdiv_one x : valid x = true -> div x one = x.
Proof.
  intros Hv. rewrite one_eq. unfold div.
  destruct x as [sx|sx| |sx mx ex]; simpl; try reflexivity; try (destruct sx; reflexivity).
  unfold valid in Hv. simpl in Hv. unfold bounded, canonical_mantissa in Hv.
  apply andb_true_iff in Hv. destruct Hv as [Hc Hb].
  apply Z.eqb_eq in Hc. apply Z.leb_le in Hb.
  change (Zpos (digits2_pos mx)) with (Zdigits2 (Zpos mx)) in Hc.
  unfold SFdiv_core_binary.
  change (Zdigits2 8388608) with 24.
  set (d1 := Zdigits2 (Zpos mx)) in *.
  assert (Hd1 : 0 < d1) by (unfold d1; simpl; lia).
  rewrite fexp32 in Hc.
  set (e' := Z.min (fexp prec emax (d1 + ex - (24 + -23))) (ex - -23)).
  assert (He' : e' <= ex) by (unfold e'; rewrite fexp32; lia).
  set (s := ex - -23 - e').
  assert (Hs : 23 <= s) by (unfold s; lia).
  assert (Hm' : match s with Z.pos _ => Z.shiftl (Zpos mx) s | 0 => Zpos mx | Z.neg _ => 0 end
                = (2 ^ (ex - e') * Zpos mx) * 8388608).
  { assert (Hse : s = (ex - e') + 23) by (unfold s; lia).
    clearbody s. destruct s as [|p|p]; try lia.
    rewrite Z.shiftl_mul_pow2 by lia. rewrite Hse.
    rewrite Z.pow_add_r by lia. change (2 ^ 23) with 8388608. ring. }
  rewrite Hm'. rewrite div_eucl_div_mod.
  rewrite Z.div_mul by lia. rewrite Z.mod_mul by lia.
  change (new_location 8388608 0) with loc_Exact.
  unfold binary_round_aux.
  rewrite shr_fexp_exact_shift; [| lia | lia | ].
  2:{ replace (e' + (ex - e')) with ex by lia. rewrite fexp32. fold d1. lia. }
  simpl round_nearest_even.
  replace (e' + (ex - e')) with ex by lia.
  pose proof (shr_fexp_exact_shift (Zpos mx) 0 ex ltac:(lia) ltac:(lia)) as H0.
  rewrite Z.pow_0_r, Z.mul_1_l, Z.add_0_r in H0. rewrite H0.
  2:{ rewrite fexp32. fold d1. lia. }
  simpl shr_m. apply Z.leb_le in Hb. rewrite Hb. rewrite xorb_false_r. reflexivity.
Qed.

(** Subtracting +0.0 changes nothing, not even the sign of a zero. *)
Lemma SFsub_zero x : sub x (S754_zero false) = x.
Proof. destruct x as [[]|[]| |]; reflexivity. Qed.

End Binary32Facts.

(** ** The driver on a given signal *)

Lemma with_conversions_same w : with_conversions w (conversions w) = w.
Proof. destruct w; reflexivity. Qed.

Lemma window_sum_S signal from n :
  window_sum signal from (S n) = signal from + window_sum signal (S from) n.
Proof. reflexivity. Qed.

(** Reading [n] times takes the next [n] conversions, in order, and changes
    nothing else. *)
Lemma read_sum_spec n : forall w,
  HX711.read_sum n w
  = (window_sum (adc w) (conversions w) n, with_conversions w (conversions w + n)).
Proof.
  induction n as [|n IH]; intros w.
  - simpl. unfold ret. rewrite Nat.add_0_r, with_conversions_same. reflexivity.
  - cbn [HX711.read_sum]. unfold bind at 1. unfold HX711.read at 1.
    unfold bind at 1. rewrite IH. unfold ret.
    rewrite window_sum_S. cbn. f_equal.
    unfold with_conversions. cbn. f_equal. lia.
Qed.

Lemma read_average_spec n w :
  HX711.read_average n w
  = (window_mean (adc w) (conversions w) n, with_conversions w (conversions w + n)).
Proof.
  unfold HX711.read_average, bind. rewrite read_sum_spec. reflexivity.
Qed.

Lemma get_value_spec n w :
  HX711.get_value n w
  = (sub (window_mean (adc w) (conversions w) n) (of_Z (OFFSET (loadcell w))),
     with_conversions w (conversions w + n)).
Proof.
  unfold HX711.get_value, bind. rewrite read_average_spec. reflexivity.
Qed.

Lemma get_units_spec n w :
  HX711.get_units n w
  = (div (sub (window_mean (adc w) (conversions w) n) (of_Z (OFFSET (loadcell w))))
         (SCALE (loadcell w)),
     with_conversions w (conversions w + n)).
Proof.
  unfold HX711.get_units, bind. rewrite get_value_spec. reflexivity.
Qed.

Lemma tare_spec w :
  HX711.tare w
  = (tt, with_loadcell
           (with_conversions w (conversions w + TARE_TIMES (loadcell w)))
           {| OFFSET := to_Z (window_mean (adc w) (conversions w) (TARE_TIMES (loadcell w)));
              SCALE := SCALE (loadcell w);
              TARE_TIMES := TARE_TIMES (loadcell w) |}).
Proof.
  unfold HX711.tare, bind, gets. rewrite read_average_spec. reflexivity.
Qed.

(** On a constant signal every window sums to the constant times its length. *)
Lemma window_sum_const signal v n : forall from,
  (forall i, signal i = v) -> window_sum signal from n = v * Z.of_nat n.
Proof.
  induction n as [|n IH]; intros from Hs.
  - unfold window_sum. simpl. lia.
  - rewrite window_sum_S, Hs, IH by assumption. lia.
Qed.

(** ** One pass of the loop, command by command *)

Lemma char_of_int_byte c : char_of_int (Z.of_nat (nat_of_ascii c)) = c.
Proof.
  unfold char_of_int. pose proof (nat_ascii_bounded c).
  rewrite Z.mod_small by lia. rewrite Nat2Z.id. apply ascii_nat_embedding.
Qed.

Lemma loop_idle w : rx w = [] -> loop w = (tt, w).
Proof. intros H. unfold loop, bind, Serial.available, gets. rewrite H. reflexivity. Qed.

(** With a byte waiting, [loop] takes it off the line and switches on it. *)
Lemma loop_byte w c rest :
  rx w = c :: rest ->
  loop w =
  (if Ascii.eqb c "C" then
     x <- Serial.parseFloat ;;
     modify (fun w => with_scale w x) ;;
     s <- gets scale ;;
     HX711.set_scale s ;;
     Serial.print_str "Scale calibrated: " ;;
     s' <- gets scale ;;
     Serial.println_float s' 2
   else if Ascii.eqb c "R" then
     u <- HX711.get_units avg_count ;;
     Serial.println_float u 1
   else if Ascii.eqb c "T" then
     HX711.tare
   else if Ascii.eqb c "A" then
     a <- HX711.read_average avg_count ;;
     Serial.println_float a 2
   else
     ret tt) (with_rx w rest).
Proof.
  intros H. unfold loop. unfold bind at 1. unfold Serial.available, gets.
  rewrite H. cbn [List.length].
  replace (0 <? Z.of_nat (S (List.length rest))) with true by (symmetry; apply Z.ltb_lt; lia).
  unfold bind at 1. unfold Serial.read. rewrite H.
  rewrite char_of_int_byte. reflexivity.
Qed.

Lemma loop_R w rest :
  rx w = "R"%char :: rest ->
  after loop w
  = with_tx (with_conversions (with_rx w rest) (conversions w + avg_count))
      (tx w ++ [TxPrintln (PFloat
                  (div (sub (window_mean (adc w) (conversions w) avg_count)
                            (of_Z (OFFSET (loadcell w))))
                       (SCALE (loadcell w))) 1)]).
Proof.
  intros H. unfold after. rewrite (loop_byte w _ rest H). cbn [Ascii.eqb Bool.eqb].
  unfold bind. rewrite get_units_spec. reflexivity.
Qed.

Lemma loop_A w rest :
  rx w = "A"%char :: rest ->
  after loop w
  = with_tx (with_conversions (with_rx w rest) (conversions w + avg_count))
      (tx w ++ [TxPrintln (PFloat (window_mean (adc w) (conversions w) avg_count) 2)]).
Proof.
  intros H. unfold after. rewrite (loop_byte w _ rest H). cbn [Ascii.eqb Bool.eqb].
  unfold bind. rewrite read_average_spec. reflexivity.
Qed.

Lemma loop_T w rest :
  rx w = "T"%char :: rest ->
  after loop w
  = with_loadcell
      (with_conversions (with_rx w rest) (conversions w + TARE_TIMES (loadcell w)))
      {| OFFSET := to_Z (window_mean (adc w) (conversions w) (TARE_TIMES (loadcell w)));
         SCALE := SCALE (loadcell w);
         TARE_TIMES := TARE_TIMES (loadcell w) |}.
Proof.
  intros H. unfold after. rewrite (loop_byte w _ rest H). cbn [Ascii.eqb Bool.eqb].
  rewrite tare_spec. reflexivity.
Qed.

Lemma loop_C w rest :
  rx w = "C"%char :: rest ->
  let x := returned Serial.parseFloat (with_rx w rest) in
  after loop w
  = with_tx
      (with_loadcell
         (with_scale (after Serial.parseFloat (with_rx w rest)) x)
         {| OFFSET := OFFSET (loadcell w); SCALE := x;
            TARE_TIMES := TARE_TIMES (loadcell w) |})
      (tx w ++ [TxPrint (PStr "Scale calibrated: "); TxPrintln (PFloat x 2)]).
Proof.
  intros H x. unfold after at 1. rewrite (loop_byte w _ rest H). cbn [Ascii.eqb Bool.eqb].
  unfold x, returned, after, bind, Serial.parseFloat.
  cbn [rx with_rx].
  destruct (Serial.scan_literal rest) as [[[[neg ip] fp] r]|]; cbn;
    unfold with_tx, with_loadcell, with_scale; cbn; rewrite <- app_assoc; reflexivity.
Qed.

Lemma loop_other w c rest :
  rx w = c :: rest ->
  c <> "C"%char -> c <> "R"%char -> c <> "T"%char -> c <> "A"%char ->
  after loop w = with_rx w rest.
Proof.
  intros H HC HR HT HA. unfold after. rewrite (loop_byte w c rest H).
  apply Ascii.eqb_neq in HC, HR, HT, HA. rewrite HC, HR, HT, HA. reflexivity.
Qed.

(** What a pass leaves alone: the scales unless the byte is [C], the offset unless
    it is [T]. *)
Lemma loop_keeps_scale w c rest :
  rx w = c :: rest -> c <> "C"%char ->
  scale (after loop w) = scale w /\ SCALE (loadcell (after loop w)) = SCALE (loadcell w).
Proof.
  intros H HC.
  destruct (Ascii.eqb_spec c "R") as [->|HR]; [rewrite (loop_R w rest H); split; reflexivity|].
  destruct (Ascii.eqb_spec c "T") as [->|HT]; [rewrite (loop_T w rest H); split; reflexivity|].
  destruct (Ascii.eqb_spec c "A") as [->|HA]; [rewrite (loop_A w rest H); split; reflexivity|].
  rewrite (loop_other w c rest H) by assumption. split; reflexivity.
Qed.

Lemma loop_keeps_offset w c rest :
  rx w = c :: rest -> c <> "T"%char ->
  OFFSET (loadcell (after loop w)) = OFFSET (loadcell w).
Proof.
  intros H HT.
  destruct (Ascii.eqb_spec c "C") as [->|HC]; [rewrite (loop_C w rest H); reflexivity|].
  destruct (Ascii.eqb_spec c "R") as [->|HR]; [rewrite (loop_R w rest H); reflexivity|].
  destruct (Ascii.eqb_spec c "A") as [->|HA]; [rewrite (loop_A w rest H); reflexivity|].
  rewrite (loop_other w c rest H) by assumption. reflexivity.
Qed.

Lemma run_S n w : run (S n) w = run n (after loop w).
Proof. reflexivity. Qed.

Lemma run_add m : forall n w, run (m + n) w = run n (run m w).
Proof. induction m as [|m IH]; intros n w; [reflexivity|]. cbn [Nat.add run]. apply IH. Qed.

(** ** [setup] *)

Lemma setup_spec w :
  let c := conversions w in
  after setup w
  = with_tx (with_conversions w (c + 31))
      (tx w ++
       [TxPrintln (PStr "Initializing scale");
        TxPrint (PStr "  + Averaging: "); TxPrintln (PInt 10);
        TxPrint (PStr label_read); TxPrintln (PInt (adc w c));
        TxPrint (PStr label_read_average);
        TxPrintln (PFloat (window_mean (adc w) (c + 1) 20) 2);
        TxPrint (PStr label_get_value);
        TxPrintln (PFloat (sub (window_mean (adc w) (c + 21) 5)
                               (of_Z (OFFSET (loadcell w)))) 2);
        TxPrint (PStr label_get_units);
        TxPrintln (PFloat (div (sub (window_mean (adc w) (c + 26) 5)
                                    (of_Z (OFFSET (loadcell w))))
                               (SCALE (loadcell w))) 1);
        TxPrintln (PStr "Commands: (R)ead, (T)are, (C)alibrate, (A)DC")]).
Proof.
  destruct w as [h a c s r t]. cbn [conversions adc loadcell tx].
  unfold after, setup.
  unfold Serial.begin, HX711.begin, delay, Serial.println_str, Serial.print_str,
    Serial.println_int, Serial.println_float, Serial.emit, modify, ret, HX711.read.
  unfold with_tx, with_conversions.
  repeat (unfold bind at 1;
          rewrite ?read_average_spec, ?get_value_spec, ?get_units_spec;
          unfold with_conversions;
          cbn [fst snd tx rx adc conversions scale loadcell]).
  rewrite <- !app_assoc. cbn [app].
  replace (S c) with (c + 1)%nat by lia.
  replace (c + 1 + 20)%nat with (c + 21)%nat by lia.
  replace (c + 21 + 5)%nat with (c + 26)%nat by lia.
  replace (c + 26 + 5)%nat with (c + 31)%nat by lia.
  reflexivity.
Qed.

(** * Properties of the sketch *)

(** C8. On initialization [setup] performs, in this order, one raw read, one
    [read_average(20)], one [get_value(5)] and one [get_units(5)], and prints each
    result after its label: the printed values are what these four operations
    return on the successive states of the channel (the conversion at position [c],
    then the next 20, the next 5 and the next 5), 31 conversions are consumed in
    all, and nothing else of the world changes; in particular no waiting byte is
    touched. *)
Theorem setup_diagnostics w :
  let c := conversions w in
  rx (after setup w) = rx w /\
  after setup w
  = with_tx (with_conversions w (c + 1 + 20 + 5 + 5))
      (tx w ++
       [TxPrintln (PStr "Initializing scale");
        TxPrint (PStr "  + Averaging: "); TxPrintln (PInt 10);
        TxPrint (PStr label_read);
        TxPrintln (PInt (returned HX711.read w));
        TxPrint (PStr label_read_average);
        TxPrintln (PFloat (returned (HX711.read_average 20)
                             (with_conversions w (c + 1))) 2);
        TxPrint (PStr label_get_value);
        TxPrintln (PFloat (returned (HX711.get_value 5)
                             (with_conversions w (c + 1 + 20))) 2);
        TxPrint (PStr label_get_units);
        TxPrintln (PFloat (returned (HX711.get_units 5)
                             (with_conversions w (c + 1 + 20 + 5))) 1);
        TxPrintln (PStr "Commands: (R)ead, (T)are, (C)alibrate, (A)DC")]).
Proof.
  intros c. rewrite setup_spec. fold c. split; [reflexivity|].
  unfold returned. rewrite read_average_spec, get_value_spec, get_units_spec.
  cbn [fst HX711.read adc conversions loadcell with_conversions].
  replace (c + 1 + 20 + 5 + 5)%nat with (c + 31)%nat by lia.
  replace (c + 1 + 20 + 5)%nat with (c + 26)%nat by lia.
  replace (c + 1 + 20)%nat with (c + 21)%nat by lia.
  reflexivity.
Qed.

(** C10. Every [R] and every [A] command averages over the same count, the
    constant [avg_count] = 10: whatever the world, an [R] prints what
    [get_units(10)] returns and an [A] what [read_average(10)] returns, and either
    consumes exactly 10 conversions. The count is a constant of the sketch, not a
    part of the world, so no pass can change it. *)
Theorem read_commands_average_over_ten w rest :
  avg_count = 10%nat /\
  (rx w = "R"%char :: rest ->
   after loop w
   = with_tx (with_conversions (with_rx w rest) (conversions w + 10))
       (tx w ++ [TxPrintln (PFloat (returned (HX711.get_units 10) (with_rx w rest)) 1)])) /\
  (rx w = "A"%char :: rest ->
   after loop w
   = with_tx (with_conversions (with_rx w rest) (conversions w + 10))
       (tx w ++ [TxPrintln (PFloat (returned (HX711.read_average 10) (with_rx w rest)) 2)])).
Proof.
  split; [reflexivity|]. split; intros H.
  - rewrite (loop_R w rest H). unfold returned. rewrite get_units_spec. reflexivity.
  - rewrite (loop_A w rest H). unfold returned. rewrite read_average_spec. reflexivity.
Qed.

(** C5. For every byte the loop processes: the offset changes only on [T] and the
    scale (the sketch's and the instrument's) only on [C]; a byte other than [C],
    [R], [T] and [A] prints nothing and changes nothing but the line it is taken
    from. *)
Theorem loop_frame w c rest :
  rx w = c :: rest ->
  (c <> "T"%char -> OFFSET (loadcell (after loop w)) = OFFSET (loadcell w)) /\
  (c <> "C"%char ->
   scale (after loop w) = scale w /\
   SCALE (loadcell (after loop w)) = SCALE (loadcell w)) /\
  (c <> "C"%char -> c <> "R"%char -> c <> "T"%char -> c <> "A"%char ->
   tx (after loop w) = tx w /\ after loop w = with_rx w rest).
Proof.
  intros H. split; [|split].
  - intros HT. exact (loop_keeps_offset w c rest H HT).
  - intros HC. exact (loop_keeps_scale w c rest H HC).
  - intros HC HR HT HA. rewrite (loop_other w c rest H HC HR HT HA).
    split; reflexivity.
Qed.

Lemma loop_frame_witness :
  OFFSET (loadcell (after loop frame_world)) = OFFSET (loadcell frame_world) /\
  scale (after loop frame_world) = scale frame_world /\
  SCALE (loadcell (after loop frame_world)) = SCALE (loadcell frame_world) /\
  tx (after loop frame_world) = tx frame_world /\
  after loop frame_world = with_rx frame_world ["R"%char].
Proof.
  destruct (loop_frame frame_world "Z"%char ["R"%char] eq_refl) as (HO & HS & HN).
  split; [apply HO; discriminate|].
  destruct (HS ltac:(discriminate)) as [H1 H2].
  destruct (HN ltac:(discriminate) ltac:(discriminate) ltac:(discriminate)
               ltac:(discriminate)) as [H3 H4].
  repeat split; assumption.
Defined.

Lemma reads_iterated n w :
  Nat.iter n (after HX711.read) w = with_conversions w (conversions w + n).
Proof.
  induction n as [|n IH].
  - rewrite Nat.add_0_r. symmetry. apply with_conversions_same.
  - rewrite Nat.iter_succ, IH. unfold after, HX711.read, with_conversions.
    cbn [snd adc conversions loadcell scale rx tx]. f_equal. lia.
Qed.

Lemma window_mean_valid signal from n : valid (window_mean signal from n) = true.
Proof. unfold window_mean, div. apply SFdiv_valid. Qed.

(** C3. [read_average(n)] reads the channel exactly [n] times, one conversion
    after the other, and returns the unweighted mean of the [n] samples so
    obtained: their sum divided by [n], in binary32. The world it leaves is the
    one [n] successive raw reads leave. *)
Theorem read_average_is_mean n w :
  let samples := map (adc w) (seq (conversions w) n) in
  returned (HX711.read_average n) w
  = div (of_Z (fold_right Z.add 0 samples)) (of_Z (Z.of_nat n)) /\
  after (HX711.read_average n) w = Nat.iter n (after HX711.read) w /\
  conversions (after (HX711.read_average n) w) = (conversions w + n)%nat.
Proof.
  intros samples. rewrite reads_iterated.
  unfold returned, after. rewrite read_average_spec.
  cbn [fst snd]. repeat split; reflexivity.
Qed.

(** C2. [get_units(n)] is [get_value(n)] divided by the instrument's scale, by a
    binary32 division, and leaves the world [get_value(n)] leaves; with scale 1.0
    and offset 0 it returns what [read_average(n)] returns. *)
Theorem get_units_is_value_over_scale n w :
  HX711.get_units n w
  = (div (returned (HX711.get_value n) w) (SCALE (loadcell w)),
     after (HX711.get_value n) w) /\
  (SCALE (loadcell w) = one -> OFFSET (loadcell w) = 0 ->
   returned (HX711.get_units n) w = returned (HX711.read_average n) w).
Proof.
  split.
  - unfold returned, after. rewrite get_units_spec, get_value_spec. reflexivity.
  - intros Hs Ho. unfold returned.
    rewrite get_units_spec, read_average_spec. cbn [fst].
    rewrite Hs, Ho. change (of_Z 0) with (S754_zero false).
    rewrite SFsub_zero. apply SFdiv_one. apply window_mean_valid.
Qed.

Lemma get_units_is_value_over_scale_witness :
  HX711.get_units 3 ramp_world
  = (div (returned (HX711.get_value 3) ramp_world) (SCALE (loadcell ramp_world)),
     after (HX711.get_value 3) ramp_world) /\
  returned (HX711.get_units 3) ramp_world = returned (HX711.read_average 3) ramp_world.
Proof.
  destruct (get_units_is_value_over_scale 3 ramp_world) as [H1 H2].
  split; [exact H1 | apply H2; reflexivity].
Defined.

Lemma read_commands_average_over_ten_witness :
  avg_count = 10%nat /\
  after loop (with_rx ramp_world ["R"%char])
  = with_tx (with_conversions ramp_world 10)
      (tx ramp_world ++
       [TxPrintln (PFloat (returned (HX711.get_units 10) ramp_world) 1)]) /\
  after loop (with_rx ramp_world ["A"%char])
  = with_tx (with_conversions ramp_world 10)
      (tx ramp_world ++
       [TxPrintln (PFloat (returned (HX711.read_average 10) ramp_world) 2)]).
Proof.
  destruct (read_commands_average_over_ten (with_rx ramp_world ["R"%char]) [])
    as (H0 & HR & _).
  destruct (read_commands_average_over_ten (with_rx ramp_world ["A"%char]) [])
    as (_ & _ & HA).
  split; [exact H0|]. split; [exact (HR eq_refl) | exact (HA eq_refl)].
Defined.

(** ** Calibration *)

Ltac world_norm :=
  unfold with_tx, with_rx, with_conversions, with_scale, with_loadcell;
  cbn [loadcell adc conversions scale rx tx OFFSET SCALE TARE_TIMES fst snd].

(** Bytes that do not start with a literal: none at all, or a first byte that is
    neither a digit nor a sign nor a point. *)
Lemma scan_literal_nil : Serial.scan_literal [] = None.
Proof. reflexivity. Qed.

Lemma scan_literal_other c l :
  Serial.is_digit c = false -> c <> "-"%char -> c <> "."%char ->
  Serial.scan_literal (c :: l) = None.
Proof.
  intros Hd Hm Hp. unfold Serial.scan_literal.
  assert (E1 : match c :: l with
               | "-"%char :: l' => (true, l')
               | _ => (false, c :: l)
               end = (false, c :: l)).
  { destruct c as [[] [] [] [] [] [] [] []]; try reflexivity. congruence. }
  rewrite E1. cbn [Serial.span_digits]. rewrite Hd.
  assert (E2 : match c :: l with
               | "."%char :: l' => Serial.span_digits l'
               | _ => ([], c :: l)
               end = ([], c :: l)).
  { destruct c as [[] [] [] [] [] [] [] []]; try reflexivity. congruence. }
  rewrite E2. reflexivity.
Qed.

Lemma parseFloat_none w : Serial.scan_literal (rx w) = None -> Serial.parseFloat w = (zero, w).
Proof. intros H. unfold Serial.parseFloat. rewrite H. reflexivity. Qed.

(** C7. A [C] that is not followed by a literal goes through like any other: the
    argument parses to zero, zero becomes the scale (the sketch's and the
    instrument's) and is echoed, the bytes after the [C] are still on the line,
    and the loop goes on with them. The model has no failure to signal: every
    pass returns a world. *)
Theorem calibrate_without_number w rest n :
  rx w = "C"%char :: rest ->
  Serial.scan_literal rest = None ->
  let w' :=
    with_tx
      (with_loadcell (with_scale (with_rx w rest) zero)
         {| OFFSET := OFFSET (loadcell w); SCALE := zero;
            TARE_TIMES := TARE_TIMES (loadcell w) |})
      (tx w ++ [TxPrint (PStr "Scale calibrated: "); TxPrintln (PFloat zero 2)]) in
  returned Serial.parseFloat (with_rx w rest) = zero /\
  after loop w = w' /\
  rx w' = rest /\
  run (S n) w = run n w'.
Proof.
  intros H Hnone w'.
  assert (Hp : Serial.parseFloat (with_rx w rest) = (zero, with_rx w rest))
    by (apply parseFloat_none; exact Hnone).
  assert (Hl : after loop w = w').
  { rewrite (loop_C w rest H). unfold returned, after. rewrite Hp. reflexivity. }
  split; [unfold returned; rewrite Hp; reflexivity|].
  split; [exact Hl|]. split; [reflexivity|].
  rewrite run_S, Hl. reflexivity.
Qed.

(** On the line ['1','0','.','0'] followed by a byte that is not a digit,
    [parseFloat] returns 10.0 and stops in front of that byte. *)
Lemma parseFloat_ten w l :
  rx w = ["1"; "0"; "."; "0"; "010"]%char ++ l ->
  Serial.parseFloat w = (of_Z 10, with_rx w ("010"%char :: l)).
Proof.
  intros H. unfold Serial.parseFloat. rewrite H. reflexivity.
Qed.

Lemma calibrate_without_number_witness :
  returned Serial.parseFloat (with_rx ramp_world ["R"%char]) = zero /\
  scale (after loop (with_rx ramp_world ["C"; "R"]%char)) = zero /\
  SCALE (loadcell (after loop (with_rx ramp_world ["C"; "R"]%char))) = zero /\
  rx (after loop (with_rx ramp_world ["C"; "R"]%char)) = ["R"%char] /\
  tx (run 2 (with_rx ramp_world ["C"; "R"]%char))
  = [TxPrint (PStr "Scale calibrated: "); TxPrintln (PFloat zero 2);
     TxPrintln (PFloat (S754_infinity false) 1)].
Proof.
  destruct (calibrate_without_number (with_rx ramp_world ["C"; "R"]%char)
              ["R"%char] 1 eq_refl eq_refl) as (H1 & H2 & H3 & H4).
  split; [exact H1|]. rewrite H4, H2. repeat split; reflexivity.
Defined.

(** ** The two command-line scenarios *)

(** C1. With ['C','1','0','.','0','\n','R'] on the line, every raw sample 100 and
    offset 0: the first pass consumes the [C] and its argument, leaves the scale
    (the sketch's and the instrument's) at 10.0 and echoes it; the newline is
    dropped by the second pass; the [R] of the third pass reports 10.0, shown
    with one decimal. *)
Theorem calibrate_then_read w :
  rx w = ["C"; "1"; "0"; "."; "0"; "010"; "R"]%char ->
  (forall i, adc w i = 100) ->
  OFFSET (loadcell w) = 0 ->
  scale (run 1 w) = of_Z 10 /\
  SCALE (loadcell (run 1 w)) = of_Z 10 /\
  rx (run 1 w) = ["010"; "R"]%char /\
  tx (run 1 w)
  = tx w ++ [TxPrint (PStr "Scale calibrated: "); TxPrintln (PFloat (of_Z 10) 2)] /\
  tx (run 3 w) = tx (run 1 w) ++ [TxPrintln (PFloat (of_Z 10) 1)].
Proof.
  intros Hrx Hadc Hoff.
  assert (H1 : run 1 w
    = with_tx
        (with_loadcell (with_scale (with_rx w ["010"; "R"]%char) (of_Z 10))
           {| OFFSET := 0; SCALE := of_Z 10; TARE_TIMES := TARE_TIMES (loadcell w) |})
        (tx w ++ [TxPrint (PStr "Scale calibrated: "); TxPrintln (PFloat (of_Z 10) 2)])).
  { cbn [run]. rewrite (loop_C w _ Hrx). unfold returned, after.
    rewrite (parseFloat_ten (with_rx w ["1"; "0"; "."; "0"; "010"; "R"]%char)
               ["R"%char] eq_refl).
    rewrite Hoff. reflexivity. }
  change 3%nat with (1 + 2)%nat. rewrite run_add, H1.
  set (w1 := with_tx _ _).
  assert (H2 : run 1 w1 = with_rx w1 ["R"%char]).
  { cbn [run]. apply (loop_other w1 "010"%char ["R"%char]); [reflexivity|discriminate..]. }
  change 2%nat with (1 + 1)%nat. rewrite run_add, H2.
  cbn [run]. rewrite (loop_R (with_rx w1 ["R"%char]) [] eq_refl).
  unfold window_mean. rewrite (window_sum_const _ 100) by exact Hadc.
  subst w1. world_norm.
  repeat split; reflexivity.
Qed.

Lemma calibrate_then_read_witness :
  scale (run 1 calibrate_world) = of_Z 10 /\
  SCALE (loadcell (run 1 calibrate_world)) = of_Z 10 /\
  rx (run 1 calibrate_world) = ["010"; "R"]%char /\
  tx (run 1 calibrate_world)
  = [TxPrint (PStr "Scale calibrated: "); TxPrintln (PFloat (of_Z 10) 2)] /\
  tx (run 3 calibrate_world)
  = tx (run 1 calibrate_world) ++ [TxPrintln (PFloat (of_Z 10) 1)].
Proof.
  apply (calibrate_then_read calibrate_world); [reflexivity | intros i; reflexivity | reflexivity].
Defined.

(** The mean of [k] samples of 50, converted to an integer, is 50 for every count
    that fits a byte: one division for each count. *)
Lemma mean_of_fifties k :
  (1 <= k <= 255)%nat ->
  to_Z (div (of_Z (50 * Z.of_nat k)) (of_Z (Z.of_nat k))) = 50.
Proof.
  intros Hk.
  assert (Hall : forallb
            (fun k => to_Z (div (of_Z (50 * Z.of_nat k)) (of_Z (Z.of_nat k))) =? 50)
            (seq 1 255) = true) by (vm_compute; reflexivity).
  rewrite forallb_forall in Hall. apply Z.eqb_eq. apply Hall. apply in_seq. lia.
Qed.

(** C6. A [T] while every raw sample is 50 prints nothing and sets the offset to
    50; an [R] after it, the samples still 50 and the scale 1.0, reports 0.0. The
    tare count is the driver's: any count from 1 to 255. *)
Theorem tare_then_read w :
  rx w = ["T"; "R"]%char ->
  (forall i, adc w i = 50) ->
  SCALE (loadcell w) = one ->
  (1 <= TARE_TIMES (loadcell w) <= 255)%nat ->
  tx (run 1 w) = tx w /\
  OFFSET (loadcell (run 1 w)) = 50 /\
  tx (run 2 w) = tx w ++ [TxPrintln (PFloat zero 1)].
Proof.
  intros Hrx Hadc Hscale Hk.
  assert (H1 : run 1 w
    = with_loadcell
        (with_conversions (with_rx w ["R"%char]) (conversions w + TARE_TIMES (loadcell w)))
        {| OFFSET := 50; SCALE := one; TARE_TIMES := TARE_TIMES (loadcell w) |}).
  { cbn [run]. rewrite (loop_T w _ Hrx). unfold window_mean.
    rewrite (window_sum_const _ 50) by exact Hadc.
    rewrite mean_of_fifties by exact Hk. rewrite Hscale. reflexivity. }
  change 2%nat with (1 + 1)%nat. rewrite run_add, H1.
  set (w1 := with_loadcell _ _).
  cbn [run]. rewrite (loop_R w1 [] eq_refl).
  unfold window_mean. rewrite (window_sum_const _ 50) by exact Hadc.
  subst w1. world_norm.
  repeat split; reflexivity.
Qed.

Lemma tare_then_read_witness :
  tx (run 1 tare_world) = [] /\
  OFFSET (loadcell (run 1 tare_world)) = 50 /\
  tx (run 2 tare_world) = [TxPrintln (PFloat zero 1)].
Proof.
  apply (tare_then_read tare_world);
    [reflexivity | intros i; reflexivity | reflexivity | cbn; lia].
Defined.

(** ** The scale across passes *)

Lemma setup_keeps_scale w :
  scale (after setup w) = scale w /\
  SCALE (loadcell (after setup w)) = SCALE (loadcell w).
Proof. rewrite setup_spec. split; reflexivity. Qed.

(** Passes keep the two scales away from zero as long as no [C] hands a zero to
    [set_scale]. *)
Lemma run_keeps_scale_nonzero n : forall w,
  is_zero (scale w) = false ->
  is_zero (SCALE (loadcell w)) = false ->
  forallb (fun x => negb (is_zero x)) (calibrations n w) = true ->
  is_zero (scale (run n w)) = false /\
  is_zero (SCALE (loadcell (run n w))) = false.
Proof.
  induction n as [|n IH]; intros w Hs HS Hc.
  - split; assumption.
  - rewrite run_S. cbn [calibrations] in Hc.
    destruct (rx w) as [|c rest] eqn:Hrx.
    + assert (E : after loop w = w) by (unfold after; rewrite (loop_idle w Hrx); reflexivity).
      rewrite E in *. apply IH; assumption.
    + destruct (Ascii.eqb_spec c "C") as [->|HC].
      * cbn [forallb] in Hc. apply andb_true_iff in Hc. destruct Hc as [Hx Hc].
        apply negb_true_iff in Hx.
        apply IH; [| |exact Hc]; rewrite (loop_C w rest Hrx); exact Hx.
      * destruct (loop_keeps_scale w c rest Hrx HC) as [E1 E2].
        apply IH; [rewrite E1|rewrite E2|]; assumption.
Qed.

(** C4, as the sketch has it. The scale is not kept away from zero by the code:
    [C] installs whatever [parseFloat] returns. What holds is that, from power-on
    (scale 1.0) and through any number of passes, the sketch's scale and the
    instrument's are nonzero as long as every [C] processed so far was given a
    nonzero argument. *)
Theorem scale_nonzero_while_arguments_nonzero k signal input n :
  forallb (fun x => negb (is_zero x))
    (calibrations n (after setup (power_on k signal input))) = true ->
  is_zero (scale (sketch n (power_on k signal input))) = false /\
  is_zero (SCALE (loadcell (sketch n (power_on k signal input)))) = false.
Proof.
  intros Hc. unfold sketch.
  destruct (setup_keeps_scale (power_on k signal input)) as [E1 E2].
  apply run_keeps_scale_nonzero; [rewrite E1|rewrite E2|exact Hc]; reflexivity.
Qed.

Lemma scale_nonzero_while_arguments_nonzero_witness :
  calibrations 7 (after setup calibrate_world) = [of_Z 10] /\
  is_zero (scale (sketch 7 calibrate_world)) = false /\
  is_zero (SCALE (loadcell (sketch 7 calibrate_world))) = false.
Proof.
  split; [reflexivity|].
  apply (scale_nonzero_while_arguments_nonzero 10 (fun _ => 100)
           ["C"; "1"; "0"; "."; "0"; "010"; "R"]%char 7).
  reflexivity.
Defined.

(** C4 as stated fails: from power-on, the command [C0] leaves both scales at
    zero. *)
Lemma scale_zero_is_reachable :
  is_zero (scale (power_on 10 (fun _ => 0) ["C"; "0"; "010"]%char)) = false /\
  is_zero (scale (sketch 1 (power_on 10 (fun _ => 0) ["C"; "0"; "010"]%char))) = true /\
  is_zero (SCALE (loadcell (sketch 1 (power_on 10 (fun _ => 0) ["C"; "0"; "010"]%char))))
  = true.
Proof. repeat split; reflexivity. Qed.

(** ** The count of a tare

    The [T] branch calls [tare()] without an argument: the number of conversions
    it averages is the driver's own count, whatever [avg_count] is. *)
Lemma tare_takes_driver_count w rest :
  rx w = "T"%char :: rest ->
  conversions (after loop w) = (conversions w + TARE_TIMES (loadcell w))%nat /\
  OFFSET (loadcell (after loop w))
  = to_Z (returned (HX711.read_average (TARE_TIMES (loadcell w))) (with_rx w rest)).
Proof.
  intros H. rewrite (loop_T w rest H). unfold returned. rewrite read_average_spec.
  split; reflexivity.
Qed.

(** * More on the sketch *)

(** ** The two scales move together *)

Lemma run_keeps_scales_equal n : forall w,
  scale w = SCALE (loadcell w) ->
  scale (run n w) = SCALE (loadcell (run n w)).
Proof.
  induction n as [|n IH]; intros w H; [exact H|].
  rewrite run_S. apply IH.
  destruct (rx w) as [|c rest] eqn:Hrx.
  - unfold after. rewrite (loop_idle w Hrx). exact H.
  - destruct (Ascii.eqb_spec c "C") as [->|HC].
    + rewrite (loop_C w rest Hrx). reflexivity.
    + destruct (loop_keeps_scale w c rest Hrx HC) as [E1 E2]. congruence.
Qed.

(** X1. The sketch keeps its own [scale] and hands every new value to the
    instrument at once: from power-on, after [setup] and any number of passes,
    the sketch's [scale] and the instrument's are the same float. *)
Theorem sketch_scale_is_instrument_scale k signal input n :
  scale (sketch n (power_on k signal input))
  = SCALE (loadcell (sketch n (power_on k signal input))).
Proof.
  unfold sketch. apply run_keeps_scales_equal.
  destruct (setup_keeps_scale (power_on k signal input)) as [E1 E2].
  rewrite E1, E2. reflexivity.
Qed.

(** ** The line is read front to back *)

Lemma span_digits_suffix l :
  exists p, l = p ++ snd (Serial.span_digits l).
Proof.
  induction l as [|c l IH]; [exists []; reflexivity|].
  cbn [Serial.span_digits]. destruct (Serial.is_digit c).
  - destruct IH as [p Hp]. destruct (Serial.span_digits l) as [ds r].
    exists (c :: p). cbn [snd] in *. rewrite Hp at 1. reflexivity.
  - exists []. reflexivity.
Qed.

(** What [parseFloat] leaves on the line is an end piece of what it found. *)
Lemma parseFloat_suffix w :
  exists p, rx w = p ++ rx (after Serial.parseFloat w).
Proof.
  unfold after, Serial.parseFloat.
  destruct (Serial.scan_literal (rx w)) as [[[[neg ip] fp] r]|] eqn:E;
    [|exists []; reflexivity].
  cbn [snd rx with_rx]. unfold Serial.scan_literal in E.
  set (l1 := match rx w with
             | "-"%char :: l' => (true, l')
             | _ => (false, rx w)
             end) in E.
  assert (H1 : exists p, rx w = p ++ snd l1).
  { subst l1. destruct (rx w) as [|c l]; [exists []; reflexivity|].
    destruct (Ascii.eqb_spec c "-") as [->|Hc]; [exists ["-"%char]; reflexivity|].
    exists []. destruct c as [[] [] [] [] [] [] [] []]; try reflexivity. congruence. }
  destruct l1 as [neg' l1']. cbn [snd] in H1.
  destruct (span_digits_suffix l1') as [p2 H2].
  destruct (Serial.span_digits l1') as [ip' l2]. cbn [snd] in H2.
  set (l3 := match l2 with
             | "."%char :: l' => Serial.span_digits l'
             | _ => ([], l2)
             end) in E.
  assert (H3 : exists p, l2 = p ++ snd l3).
  { subst l3. destruct l2 as [|c l]; [exists []; reflexivity|].
    destruct (Ascii.eqb_spec c ".") as [->|Hc].
    - destruct (span_digits_suffix l) as [p Hp]. exists ("."%char :: p).
      cbn [app]. rewrite Hp at 1. reflexivity.
    - exists []. destruct c as [[] [] [] [] [] [] [] []]; try reflexivity. congruence. }
  destruct l3 as [fp' l3']. cbn [snd] in H3.
  destruct (ip' ++ fp') eqn:Ed; [discriminate|].
  injection E as <- <- <- <-.
  destruct H1 as [p1 H1]. destruct H3 as [p3 H3].
  exists (p1 ++ p2 ++ p3). rewrite H1, H2, H3. rewrite !app_assoc. reflexivity.
Qed.

(** A pass takes the first byte off the line, and what is left afterwards is an
    end piece of the rest. *)
Lemma loop_takes_bytes w c rest :
  rx w = c :: rest -> exists p, rest = p ++ rx (after loop w).
Proof.
  intros H.
  destruct (Ascii.eqb_spec c "C") as [->|HC].
  - rewrite (loop_C w rest H). cbn zeta. world_norm.
    destruct (parseFloat_suffix (with_rx w rest)) as [p Hp]. exists p. exact Hp.
  - exists [].
    destruct (Ascii.eqb_spec c "R") as [->|HR]; [rewrite (loop_R w rest H); reflexivity|].
    destruct (Ascii.eqb_spec c "T") as [->|HT]; [rewrite (loop_T w rest H); reflexivity|].
    destruct (Ascii.eqb_spec c "A") as [->|HA]; [rewrite (loop_A w rest H); reflexivity|].
    rewrite (loop_other w c rest H) by assumption. reflexivity.
Qed.

Lemma run_idle n : forall w, rx w = [] -> run n w = w.
Proof.
  induction n as [|n IH]; intros w H; [reflexivity|].
  rewrite run_S. unfold after. rewrite (loop_idle w H). cbn [snd]. apply IH. exact H.
Qed.

Lemma run_drains n : forall w, (List.length (rx w) <= n)%nat -> rx (run n w) = [].
Proof.
  induction n as [|n IH]; intros w H.
  - cbn [run]. destruct (rx w); [reflexivity|cbn in H; lia].
  - rewrite run_S. apply IH.
    destruct (rx w) as [|c rest] eqn:Hrx.
    + unfold after. rewrite (loop_idle w Hrx). cbn [snd]. rewrite Hrx. cbn. lia.
    + destruct (loop_takes_bytes w c rest Hrx) as [p Hp].
      cbn [List.length] in H. rewrite Hp in H. rewrite length_app in H. lia.
Qed.

(** X2. Every waiting byte gets its turn: after as many passes as there are
    bytes on the line the line is empty, and from then on passes change nothing
    at all. *)
Theorem line_drains w k :
  rx (run (List.length (rx w)) w) = [] /\
  run (List.length (rx w) + k) w = run (List.length (rx w)) w.
Proof.
  assert (H : rx (run (List.length (rx w)) w) = []) by (apply run_drains; lia).
  split; [exact H|]. rewrite run_add. apply run_idle. exact H.
Qed.

(** ** Bytes that are no command *)

(** X3. Bytes that are none of [C], [R], [T] and [A], line ends among them, are
    passed over one per pass: after as many passes as there are such bytes at the
    head of the line, the world is the one it was, less those bytes. *)
Theorem noise_is_skipped junk : forall w rest,
  rx w = junk ++ rest ->
  forallb (fun c => negb (is_command c)) junk = true ->
  run (List.length junk) w = with_rx w rest.
Proof.
  induction junk as [|c junk IH]; intros w rest Hrx Hn.
  - cbn in *. rewrite <- Hrx. destruct w; reflexivity.
  - cbn [forallb] in Hn. apply andb_true_iff in Hn. destruct Hn as [Hc Hn].
    apply negb_true_iff in Hc. unfold is_command in Hc.
    apply orb_false_iff in Hc. destruct Hc as [Hc HA].
    apply orb_false_iff in Hc. destruct Hc as [Hc HT].
    apply orb_false_iff in Hc. destruct Hc as [HC HR].
    apply Ascii.eqb_neq in HC, HR, HT, HA.
    cbn [List.length]. rewrite run_S.
    rewrite (loop_other w c (junk ++ rest) Hrx HC HR HT HA).
    rewrite (IH (with_rx w (junk ++ rest)) rest eq_refl Hn). reflexivity.
Qed.

Lemma noise_is_skipped_witness :
  run 3 (with_rx ramp_world ["013"; "010"; " "; "A"]%char)
  = with_rx (with_rx ramp_world ["013"; "010"; " "; "A"]%char) ["A"%char].
Proof.
  exact (noise_is_skipped ["013"; "010"; " "]%char
           (with_rx ramp_world ["013"; "010"; " "; "A"]%char) ["A"%char]
           eq_refl eq_refl).
Defined.

(** ** What passes never undo *)

Lemma parseFloat_only_takes_bytes w :
  after Serial.parseFloat w = with_rx w (rx (after Serial.parseFloat w)).
Proof.
  unfold after, Serial.parseFloat.
  destruct (Serial.scan_literal (rx w)) as [[[[neg ip] fp] r]|]; [reflexivity|].
  destruct w; reflexivity.
Qed.

Lemma loop_moves_forward w :
  adc (after loop w) = adc w /\
  TARE_TIMES (loadcell (after loop w)) = TARE_TIMES (loadcell w) /\
  (conversions w <= conversions (after loop w))%nat /\
  (exists out, tx (after loop w) = tx w ++ out) /\
  (exists p, rx w = p ++ rx (after loop w)).
Proof.
  destruct (rx w) as [|c rest] eqn:Hrx.
  - unfold after. rewrite (loop_idle w Hrx). cbn [snd]. rewrite Hrx.
    split; [reflexivity|]. split; [reflexivity|]. split; [lia|].
    split; [exists []; symmetry; apply app_nil_r | exists []; reflexivity].
  - assert (Hp : exists p, c :: rest = p ++ rx (after loop w)).
    { destruct (loop_takes_bytes w c rest Hrx) as [p Hp]. exists (c :: p).
      cbn [app]. rewrite <- Hp. reflexivity. }
    destruct (Ascii.eqb_spec c "C") as [->|HC].
    { rewrite (loop_C w rest Hrx) in *. cbn zeta in *.
      rewrite (parseFloat_only_takes_bytes (with_rx w rest)) in *.
      split; [reflexivity|]. split; [reflexivity|]. split; [cbn; lia|].
      split; [eexists; reflexivity | exact Hp]. }
    destruct (Ascii.eqb_spec c "R") as [->|HR].
    { rewrite (loop_R w rest Hrx) in *.
      split; [reflexivity|]. split; [reflexivity|]. split; [cbn; lia|].
      split; [eexists; reflexivity | exact Hp]. }
    destruct (Ascii.eqb_spec c "T") as [->|HT].
    { rewrite (loop_T w rest Hrx) in *.
      split; [reflexivity|]. split; [reflexivity|]. split; [cbn; lia|].
      split; [exists []; symmetry; apply app_nil_r | exact Hp]. }
    destruct (Ascii.eqb_spec c "A") as [->|HA].
    { rewrite (loop_A w rest Hrx) in *.
      split; [reflexivity|]. split; [reflexivity|]. split; [cbn; lia|].
      split; [eexists; reflexivity | exact Hp]. }
    rewrite (loop_other w c rest Hrx) in * by assumption.
    split; [reflexivity|]. split; [reflexivity|]. split; [cbn; lia|].
    split; [exists []; symmetry; apply app_nil_r | exact Hp].
Qed.

(** X4. Passes only move forward. Whatever arrives on the line, [n] passes never
    alter the signal of the channel or the tare count of the driver, never give a
    conversion back, only add to what has been printed, and only take bytes from
    the front of the line. *)
Theorem run_moves_forward n : forall w,
  adc (run n w) = adc w /\
  TARE_TIMES (loadcell (run n w)) = TARE_TIMES (loadcell w) /\
  (conversions w <= conversions (run n w))%nat /\
  (exists out, tx (run n w) = tx w ++ out) /\
  (exists p, rx w = p ++ rx (run n w)).
Proof.
  induction n as [|n IH]; intros w.
  - split; [reflexivity|]. split; [reflexivity|]. split; [cbn; lia|].
    split; [exists []; symmetry; apply app_nil_r | exists []; reflexivity].
  - rewrite run_S.
    destruct (loop_moves_forward w) as (A1 & K1 & C1 & [o1 O1] & [p1 P1]).
    destruct (IH (after loop w)) as (A2 & K2 & C2 & [o2 O2] & [p2 P2]).
    split; [congruence|]. split; [congruence|]. split; [lia|]. split.
    + exists (o1 ++ o2). rewrite O2, O1, app_assoc. reflexivity.
    + exists (p1 ++ p2). rewrite P1 at 1. rewrite P2 at 1. rewrite app_assoc. reflexivity.
Qed.

(** ** How many conversions a line of commands takes *)

Lemma loop_counts w c l :
  rx w = c :: l -> c <> "C"%char ->
  let reads := (count_occ ascii_dec [c] "R"%char + count_occ ascii_dec [c] "A"%char)%nat in
  let tares := count_occ ascii_dec [c] "T"%char in
  rx (after loop w) = l /\
  TARE_TIMES (loadcell (after loop w)) = TARE_TIMES (loadcell w) /\
  conversions (after loop w)
  = (conversions w + 10 * reads + TARE_TIMES (loadcell w) * tares)%nat /\
  List.length (tx (after loop w)) = (List.length (tx w) + reads)%nat.
Proof.
  intros Hrx HC reads tares. subst reads tares.
  destruct (Ascii.eqb_spec c "R") as [->|HR].
  { rewrite (loop_R w l Hrx). world_norm. rewrite length_app. unfold avg_count. cbn. repeat split; lia. }
  destruct (Ascii.eqb_spec c "T") as [->|HT].
  { rewrite (loop_T w l Hrx). world_norm. cbn. repeat split; lia. }
  destruct (Ascii.eqb_spec c "A") as [->|HA].
  { rewrite (loop_A w l Hrx). world_norm. rewrite length_app. unfold avg_count. cbn. repeat split; lia. }
  rewrite (loop_other w c l Hrx) by assumption. world_norm.
  rewrite !count_occ_cons_neq by congruence. cbn. repeat split; lia.
Qed.

(** X5. On a line without [C], one byte goes per pass, and once the line is read
    the channel has given 10 conversions for each [R] and each [A] and the
    driver's tare count for each [T], and nothing for any other byte; one item
    has been printed for each [R] and each [A]. *)
Theorem conversions_per_command l : forall w,
  rx w = l ->
  count_occ ascii_dec l "C"%char = 0%nat ->
  let reads := (count_occ ascii_dec l "R"%char + count_occ ascii_dec l "A"%char)%nat in
  let tares := count_occ ascii_dec l "T"%char in
  rx (run (List.length l) w) = [] /\
  conversions (run (List.length l) w)
  = (conversions w + 10 * reads + TARE_TIMES (loadcell w) * tares)%nat /\
  List.length (tx (run (List.length l) w)) = (List.length (tx w) + reads)%nat.
Proof.
  induction l as [|c l IH]; intros w Hrx HC reads tares.
  - cbn [List.length run]. subst reads tares. cbn [count_occ].
    split; [exact Hrx|]. split; lia.
  - cbn [List.length]. rewrite run_S.
    assert (HcC : c <> "C"%char).
    { intros ->. rewrite count_occ_cons_eq in HC by reflexivity. discriminate. }
    rewrite count_occ_cons_neq in HC by congruence.
    destruct (loop_counts w c l Hrx HcC) as (F1 & F2 & F3 & F4).
    destruct (IH (after loop w) F1 HC) as (I1 & I2 & I3).
    subst reads tares. change (c :: l) with ([c] ++ l). rewrite !count_occ_app.
    split; [exact I1|]. rewrite I2, I3, F2, F3, F4. split; lia.
Qed.

Lemma conversions_per_command_witness :
  rx (run 5 (with_rx ramp_world ["T"; "R"; "010"; "A"; "R"]%char)) = [] /\
  conversions (run 5 (with_rx ramp_world ["T"; "R"; "010"; "A"; "R"]%char)) = 40%nat /\
  List.length (tx (run 5 (with_rx ramp_world ["T"; "R"; "010"; "A"; "R"]%char))) = 3%nat.
Proof.
  exact (conversions_per_command ["T"; "R"; "010"; "A"; "R"]%char
           (with_rx ramp_world ["T"; "R"; "010"; "A"; "R"]%char) eq_refl eq_refl).
Defined.

(** ** The diagnostics of a fresh instrument *)

(** X6. At power-on nothing has been tared or calibrated, so the "get value" and
    "get units" lines of [setup] show plain averages: the mean of conversions
    21 to 25 and the mean of conversions 26 to 30, bit for bit, after the raw
    conversion 0 and the mean of conversions 1 to 20. *)
Theorem setup_at_power_on k signal input :
  after setup (power_on k signal input)
  = with_tx (with_conversions (power_on k signal input) 31)
      [TxPrintln (PStr "Initializing scale");
       TxPrint (PStr "  + Averaging: "); TxPrintln (PInt 10);
       TxPrint (PStr label_read); TxPrintln (PInt (signal 0%nat));
       TxPrint (PStr label_read_average);
       TxPrintln (PFloat (window_mean signal 1 20) 2);
       TxPrint (PStr label_get_value);
       TxPrintln (PFloat (window_mean signal 21 5) 2);
       TxPrint (PStr label_get_units);
       TxPrintln (PFloat (window_mean signal 26 5) 1);
       TxPrintln (PStr "Commands: (R)ead, (T)are, (C)alibrate, (A)DC")].
Proof.
  rewrite setup_spec. cbn [power_on HX711.init adc conversions loadcell tx OFFSET SCALE
    Nat.add app].
  change (of_Z 0) with (S754_zero false). rewrite !SFsub_zero.
  rewrite SFdiv_one by apply window_mean_valid. reflexivity.
Qed.

(** * The lantern table *)

Ltac py_eval :=
  cbv -[Binary64.add Binary64.sub Binary64.mul Binary64.div Binary64.of_Z
        Binary64.literal Binary64.pi rho_air rho_h2 rho_he rhos_mylar rhos_tissue
        Z.add Z.mul Z.pow].

Ltac py_eval_in H :=
  cbv -[Binary64.add Binary64.sub Binary64.mul Binary64.div Binary64.of_Z
        Binary64.literal Binary64.pi rho_air rho_h2 rho_he rhos_mylar rhos_tissue
        Z.add Z.mul Z.pow] in H.

(** A table with the keys of the class holds one value for each, in order. *)
Lemma table_shape (d : dict) :
  map fst d = LanternModel.prop_keys ->
  exists v0 v1 v2 v3 v4 v5 v6 v7,
    d = [("Volume (L)", v0); ("H (cm)", v1); ("S (cm2)", v2); ("So (cm2)", v3);
         ("Mylar mass (g)", v4); ("Tissue mass (g)", v5);
         ("Payload cap. (g)", v6); ("Fd (N)", v7)]%string.
Proof.
  intros H. unfold LanternModel.prop_keys in H.
  do 8 (destruct d as [|[? ?] d]; [discriminate|]; cbn [map fst] in H;
        injection H as <- H).
  destruct d; [|discriminate]. repeat eexists.
Qed.

Lemma allowed_cases k :
  LanternModel.allowed k = true ->
  In k LanternModel.prop_keys.
Proof.
  unfold LanternModel.allowed. intros H. apply existsb_exists in H.
  destruct H as [x [Hx Hk]]. apply String.eqb_eq in Hk. subst x. exact Hx.
Qed.



Lemma inr_eq_inv (A B : Type) (x y : B) : @inr A B x = inr y -> x = y.
Proof. intros H. congruence. Qed.

Lemma some_eq_inv (A : Type) (x y : A) : Some x = Some y -> x = y.
Proof. intros H. congruence. Qed.

Ltac lantern_cases self Hup :=
  let Hk := fresh "Hk" in let H6 := fresh "H6" in let H7 := fresh "H7" in
  destruct Hup as (Hk & H6 & H7);
  destruct self as [cd m r t u d]; cbn [LanternModel.prop_table] in Hk;
  destruct (table_shape d Hk) as (v0 & v1 & v2 & v3 & v4 & v5 & v6 & v7 & ->);
  clear Hk; py_eval_in H6; py_eval_in H7;
  apply inr_eq_inv in H6; apply inr_eq_inv in H7.

Ltac key_cases Hin :=
  cbv [LanternModel.prop_keys In firstn] in Hin;
  repeat (destruct Hin as [<-|Hin]); try contradiction.

(** X8. Assigning to an allowed key succeeds and leaves the lantern up to date:
    the table still has exactly the eight keys, the payload and drag entries are
    recomputed, and no attribute changes. *)
Theorem setitem_keeps_up_to_date self k item :
  LanternModel.up_to_date self ->
  LanternModel.allowed k = true ->
  let self' := snd (LanternModel.__setitem__ k item self) in
  fst (LanternModel.__setitem__ k item self) = inr tt /\
  LanternModel.up_to_date self' /\
  LanternModel.m_lift self' = LanternModel.m_lift self /\
  LanternModel.r_cyl self' = LanternModel.r_cyl self /\
  LanternModel.t_shell_offset self' = LanternModel.t_shell_offset self /\
  LanternModel.u_wind self' = LanternModel.u_wind self /\
  LanternModel.c_d_cyl self' = LanternModel.c_d_cyl self.
Proof.
  intros Hup Hk. apply allowed_cases in Hk.
  lantern_cases self Hup. key_cases Hk; py_eval; repeat split; reflexivity.
Qed.

(** X9. The payload and drag entries cannot be set by hand: on a lantern that is
    up to date, assigning any value to "Payload cap. (g)" or to "Fd (N)" succeeds
    and leaves the lantern exactly as it was, the assigned value gone. *)
Theorem derived_entries_cannot_be_set self k item :
  LanternModel.up_to_date self ->
  (k = "Payload cap. (g)" \/ k = "Fd (N)")%string ->
  LanternModel.__setitem__ k item self = (inr tt, self).
Proof.
  intros Hup Hk. lantern_cases self Hup.
  destruct Hk as [->| ->]; py_eval; rewrite <- H6, <- H7; reflexivity.
Qed.

(** X10. Assigning to one of the six entries that are not derived and reading it
    back gives the assigned value, and none of the other five is touched: the
    geometry is not recomputed from a new height or volume. *)
Theorem setitem_getitem self k item k' :
  LanternModel.up_to_date self ->
  In k (firstn 6 LanternModel.prop_keys) ->
  In k' (firstn 6 LanternModel.prop_keys) ->
  let self' := snd (LanternModel.__setitem__ k item self) in
  LanternModel.__getitem__ k self' = (inr item, self') /\
  (k' <> k ->
   fst (LanternModel.__getitem__ k' self') = fst (LanternModel.__getitem__ k' self)).
Proof.
  intros Hup Hk Hk'. lantern_cases self Hup.
  key_cases Hk; (split; [py_eval; reflexivity|]);
    key_cases Hk'; intros Hne; try congruence; py_eval; reflexivity.
Qed.

(** X11. A key outside the eight raises [KeyError] and changes nothing, on
    reading (the error names the key) as on assigning (the error says the key is
    not allowed); reading any of the eight keys of an up-to-date lantern
    succeeds. *)
Theorem unknown_key_raises self k item :
  LanternModel.up_to_date self ->
  (LanternModel.allowed k = false ->
   LanternModel.__getitem__ k self = (inl (LanternModel.KeyError k), self) /\
   LanternModel.__setitem__ k item self
   = (inl (LanternModel.KeyError "Key not in allowed keys"), self)) /\
  (LanternModel.allowed k = true ->
   exists v, LanternModel.__getitem__ k self = (inr v, self)).
Proof.
  intros Hup. split; intros Hk.
  - split.
    + destruct Hup as (Hkeys & _ & _).
      unfold LanternModel.__getitem__, LanternModel.table_get.
      destruct (table_shape _ Hkeys) as (v0 & v1 & v2 & v3 & v4 & v5 & v6 & v7 & ->).
      unfold LanternModel.allowed in Hk. cbn [existsb LanternModel.prop_keys] in Hk.
      repeat (apply orb_false_iff in Hk; destruct Hk as [?E Hk]).
      cbn [dict_get]. rewrite E, E0, E1, E2, E3, E4, E5, E6. reflexivity.
    + unfold LanternModel.__setitem__. rewrite Hk. reflexivity.
  - apply allowed_cases in Hk. lantern_cases self Hup.
    key_cases Hk; eexists; py_eval; reflexivity.
Qed.

(** X12. The derived entries follow what they are derived from: after the film
    mass or the tissue mass is assigned, the payload entry is the lift less the
    two masses now in the table; after the height is assigned, the drag entry is
    what [drag()] computes from the new height. *)
Theorem derived_entries_follow self x :
  LanternModel.up_to_date self ->
  let mylar := snd (LanternModel.__setitem__ "Mylar mass (g)" x self) in
  let tissue := snd (LanternModel.__setitem__ "Tissue mass (g)" x self) in
  let height := snd (LanternModel.__setitem__ "H (cm)" x self) in
  (forall v, dict_get "Tissue mass (g)" (LanternModel.prop_table self) = Some v ->
   dict_get "Payload cap. (g)" (LanternModel.prop_table mylar)
   = Some (Binary64.sub (Binary64.sub (LanternModel.m_lift self) x) v)) /\
  (forall v, dict_get "Mylar mass (g)" (LanternModel.prop_table self) = Some v ->
   dict_get "Payload cap. (g)" (LanternModel.prop_table tissue)
   = Some (Binary64.sub (Binary64.sub (LanternModel.m_lift self) v) x)) /\
  fst (LanternModel.__getitem__ "Fd (N)" height)
  = fst (LanternModel.drag (LanternModel.with_prop_table self
           (dict_set "H (cm)" x (LanternModel.prop_table self)))).
Proof.
  intros Hup. lantern_cases self Hup. split; [|split].
  - intros v Hv. py_eval_in Hv. apply some_eq_inv in Hv. subst v. py_eval. reflexivity.
  - intros v Hv. py_eval_in Hv. apply some_eq_inv in Hv. subst v. py_eval. reflexivity.
  - py_eval. reflexivity.
Qed.

Lemma setitem_keeps_up_to_date_witness :
  fst (LanternModel.__setitem__ "H (cm)" (Binary64.of_Z 70) lantern_100) = inr tt /\
  LanternModel.up_to_date
    (snd (LanternModel.__setitem__ "H (cm)" (Binary64.of_Z 70) lantern_100)) /\
  LanternModel.m_lift
    (snd (LanternModel.__setitem__ "H (cm)" (Binary64.of_Z 70) lantern_100))
  = Binary64.of_Z 100.
Proof.
  destruct (setitem_keeps_up_to_date lantern_100 "H (cm)" (Binary64.of_Z 70))
    as (H1 & H2 & H3 & _).
  - repeat split; vm_compute; reflexivity.
  - reflexivity.
  - split; [exact H1|]. split; [exact H2 | exact H3].
Defined.

Lemma derived_entries_cannot_be_set_witness :
  LanternModel.__setitem__ "Payload cap. (g)" (Binary64.of_Z 0) lantern_100
  = (inr tt, lantern_100) /\
  LanternModel.__setitem__ "Fd (N)" (Binary64.of_Z 0) lantern_100
  = (inr tt, lantern_100).
Proof.
  split.
  - apply derived_entries_cannot_be_set;
      [repeat split; vm_compute; reflexivity | left; reflexivity].
  - apply derived_entries_cannot_be_set;
      [repeat split; vm_compute; reflexivity | right; reflexivity].
Defined.

Lemma setitem_getitem_witness :
  fst (LanternModel.__getitem__ "H (cm)"
         (snd (LanternModel.__setitem__ "H (cm)" (Binary64.of_Z 70) lantern_100)))
  = inr (Binary64.of_Z 70) /\
  fst (LanternModel.__getitem__ "S (cm2)"
         (snd (LanternModel.__setitem__ "H (cm)" (Binary64.of_Z 70) lantern_100)))
  = fst (LanternModel.__getitem__ "S (cm2)" lantern_100).
Proof.
  destruct (setitem_getitem lantern_100 "H (cm)" (Binary64.of_Z 70) "S (cm2)")
    as [H1 H2].
  - repeat split; vm_compute; reflexivity.
  - cbn. tauto.
  - cbn. tauto.
  - split; [rewrite H1; reflexivity | apply H2; discriminate].
Defined.

Lemma unknown_key_raises_witness :
  LanternModel.__getitem__ "Height" lantern_100
  = (inl (LanternModel.KeyError "Height"), lantern_100) /\
  LanternModel.__setitem__ "Height" (Binary64.of_Z 70) lantern_100
  = (inl (LanternModel.KeyError "Key not in allowed keys"), lantern_100).
Proof.
  destruct (unknown_key_raises lantern_100 "Height" (Binary64.of_Z 70)) as [H _].
  - repeat split; vm_compute; reflexivity.
  - apply H. reflexivity.
Defined.

Lemma derived_entries_follow_witness :
  dict_get "Payload cap. (g)"
    (LanternModel.prop_table
       (snd (LanternModel.__setitem__ "Mylar mass (g)" (Binary64.of_Z 20) lantern_100)))
  = option_map (fun v => Binary64.sub (Binary64.sub (Binary64.of_Z 100) (Binary64.of_Z 20)) v)
      (dict_get "Tissue mass (g)" (LanternModel.prop_table lantern_100)).
Proof.
  destruct (derived_entries_follow lantern_100 (Binary64.of_Z 20)) as (H & _ & _).
  - repeat split; vm_compute; reflexivity.
  - destruct (dict_get "Tissue mass (g)" (LanternModel.prop_table lantern_100)) as [v|] eqn:E.
    + rewrite (H v eq_refl). reflexivity.
    + discriminate E.
Defined.
